(** * k8s-vault-action: the secret resolution engine (src/secrets.js)

    A shallow embedding of [getSecrets], [isAllowed], [selectData] and
    [selectAndAppendResults], and the properties of the engine that the
    specification states about them.

    JavaScript values are JSON trees, [undefined] is [None]; exceptions are
    an explicit outcome; the transport, the debug log and the record of
    calls are threaded through a small monad. *)

From Stdlib Require Import String Ascii List ZArith Bool Lia DecimalString.
From stdpp Require Import base option list strings gmap.

Local Open Scope string_scope.
Local Open Scope list_scope.

(** ** JavaScript values *)

#[local] Set Warnings "-register-all".

(** A parsed JSON document. A number is kept as its rendering: the engine
    never computes with numbers. The properties of an object are listed in
    the order in which [for (key in obj)] enumerates them; a key occurs
    once. *)
Inductive JSON : Type :=
| JNull
| JBool (b : bool)
| JNum (rendering : string)
| JStr (s : string)
| JArr (items : list JSON)
| JObj (props : list (string * JSON)).

(** A JavaScript value that may be [undefined]. *)
Abbreviation JsValue := (option JSON).
Abbreviation undefined := (@None JSON).

(** The response of the got client: a status and a text body. *)
Record Response := { statusCode : Z; body : string }.

(** The error object a failed [client.get] throws; a network failure has no
    [response]. *)
Record HTTPError := { response : option Response }.

Inductive JsError : Type :=
| TypeError (what : string)
| SyntaxError (input : string)
| Error (message : string)
| JsonataError (code : string)
| TransportError (e : HTTPError).

Inductive Outcome (A : Type) : Type :=
| Ok (a : A)
| Throw (e : JsError).
Arguments Ok {A} a.
Arguments Throw {A} e.

Definition and_then {A B} (o : Outcome A) (k : A -> Outcome B) : Outcome B :=
  match o with
  | Ok a => k a
  | Throw e => Throw e
  end.

Notation "x <~ o ;; k" := (and_then o (fun x => k))
  (at level 100, o at next level, right associativity).

Definition dquote : string := String "034"%char EmptyString.
Definition backtick : string := "`".

(** [obj[key]] on the property list of an object. *)
Fixpoint assoc (key : string) (props : list (string * JSON)) : JsValue :=
  match props with
  | [] => undefined
  | (k, v) :: rest => if String.eqb k key then Some v else assoc key rest
  end.

(** [v.data]: a [TypeError] on [undefined] and [null]; arrays, strings,
    numbers and booleans have no property of that name. *)
Definition prop_data (v : JsValue) : Outcome JsValue :=
  match v with
  | None => Throw (TypeError "Cannot read properties of undefined (reading 'data')")
  | Some JNull => Throw (TypeError "Cannot read properties of null (reading 'data')")
  | Some (JObj props) => Ok (assoc "data" props)
  | Some _ => Ok undefined
  end.

(** [key in v], for a key that is neither an array index nor ["length"]:
    a [TypeError] unless [v] is an object or an array. *)
Definition js_in (key : string) (v : JsValue) : Outcome bool :=
  match v with
  | Some (JObj props) => Ok (bool_decide (is_Some (assoc key props)))
  | Some (JArr _) => Ok false
  | _ => Throw (TypeError ("Cannot use 'in' operator to search for '" +:+ key +:+ "'"))
  end.

(** [v[key]] once [key in v] holds. *)
Definition js_index (key : string) (v : JsValue) : JsValue :=
  match v with
  | Some (JObj props) => assoc key props
  | _ => undefined
  end.

(** [v != undefined] (loose): false on [undefined] and on [null]. *)
Definition not_nullish (v : JsValue) : bool :=
  match v with
  | None | Some JNull => false
  | Some _ => true
  end.

Definition nat_to_string (n : nat) : string :=
  NilEmpty.string_of_uint (Nat.to_uint n).

(** The keys [for (key in v)] enumerates. *)
Definition forin_keys (v : JsValue) : list string :=
  match v with
  | Some (JObj props) => map fst props
  | Some (JArr items) => map nat_to_string (seq 0 (length items))
  | Some (JStr s) => map nat_to_string (seq 0 (String.length s))
  | _ => []
  end.

(** [s.includes(".")], which is also what [s.match(/.*[\.].*/)] tests. *)
Fixpoint includes_dot (s : string) : bool :=
  match s with
  | EmptyString => false
  | String c rest => if Ascii.eqb c "."%char then true else includes_dot rest
  end.

Definition startsWith (s pre : string) : bool := String.prefix pre s.

Definition lower_ascii (c : ascii) : ascii :=
  let n := nat_of_ascii c in
  if (65 <=? n)%nat && (n <=? 90)%nat then ascii_of_nat (n + 32) else c.

(** [s.toLowerCase()] on the ASCII range, which decides a comparison with
    ['false']. *)
Fixpoint toLowerCase (s : string) : string :=
  match s with
  | EmptyString => EmptyString
  | String c rest => String (lower_ascii c) (toLowerCase rest)
  end.

(** ** Requests and results *)

Record SecretRequest := {
  path : string;
  selector : string;
  outputVarName : string;
  envVarName : string
}.

Record SecretResponse := {
  request : SecretRequest;
  value : JSON;
  cachedResponse : bool
}.

(** The five identity attributes of [process.env], each taken to be
    set. *)
Record AuthorizationContext := {
  JOB_POD_NAME : string;
  JOB_POD_NAMESPACE : string;
  JOB_POD_SERVICEACCOUNT : string;
  GITHUB_ACTOR : string;
  GITHUB_REPOSITORY : string
}.

(** ** What the engine imports

    The libraries and the modules of the action that src/secrets.js
    requires: the got client, @actions/core, minimatch, jsonata, the JSON
    built-ins, ./constants and ./utils. *)
Class Platform := {
  World : Type;
  (** [await client.get(requestPath)]: the body, or the error thrown. *)
  client_get : World -> string -> (string + HTTPError) * World;
  (** [core.getInput(name, { required: false })]. *)
  core_getInput : string -> string;
  process_env : AuthorizationContext;
  (** [minimatch(subject, pattern)] on a string pattern. *)
  minimatch : string -> string -> bool;
  JSON_parse : string -> Outcome JSON;
  JSON_stringify : JSON -> string;
  String_trim : string -> string;
  String_toUpperCase : string -> string;
  (** [jsonata(expr)], [ata.ast().type], [ata.ast().steps.length] and
      [await ata.evaluate(data)]. *)
  Expr : Type;
  jsonata : string -> Outcome Expr;
  ast_type : Expr -> string;
  ast_steps_length : Expr -> nat;
  evaluate : Expr -> JSON -> Outcome JsValue;
  (** ./constants *)
  WILDCARD : string;
  WILDCARD_UPPERCASE : string;
  (** The sanitising step of [normalizeOutputKey] of ./utils. *)
  sanitize : string -> string
}.

(** Modelled from the spec: [normalizeOutputKey] of ./utils, which is not
    among the sources. The name is sanitised to an identifier and, when
    the second argument is set, upper-cased. *)
Definition normalizeOutputKey `{Platform} (dataKey : string) (upperCase : bool) : string :=
  let outputKey := sanitize dataKey in
  if upperCase then String_toUpperCase outputKey else outputKey.

(** ** Effects *)

Inductive DebugMsg : Type :=
| DbgCheck (key : string)
| DbgValue (key : string) (pattern : JsValue)
| DbgDenied (variable actual : string)
| DbgMissing (key : string)
| DbgMatched (key : string)
| DbgAuthorized.

(** What a run does, in order: the transport calls with what came back,
    the lines of [core.debug] and [core.error], and a record of each call
    of [isAllowed] and [selectData] with its arguments. *)
Inductive Event : Type :=
| EvGet (requestPath : string) (answer : string + HTTPError)
| EvDebug (msg : DebugMsg)
| EvError (msg : string)
| EvIsAllowed (data : JsValue)
| EvSelectData (data : JSON) (selector : string).

Section Monad.
Context `{Platform}.

Definition M (A : Type) : Type := World -> Outcome A * World * list Event.

Definition ret {A} (a : A) : M A := fun w => (Ok a, w, []).

Definition throw {A} (e : JsError) : M A := fun w => (Throw e, w, []).

Definition bind {A B} (m : M A) (k : A -> M B) : M B :=
  fun w =>
    match m w with
    | (Ok a, w1, t1) => let '(r, w2, t2) := k a w1 in (r, w2, t1 ++ t2)
    | (Throw e, w1, t1) => (Throw e, w1, t1)
    end.

Definition lift {A} (o : Outcome A) : M A := fun w => (o, w, []).

Definition emit (e : Event) : M unit := fun w => (Ok tt, w, [e]).

Definition debug (msg : DebugMsg) : M unit := emit (EvDebug msg).
End Monad.

Notation "x <- m ;; k" := (bind m (fun x => k))
  (at level 100, m at next level, right associativity).
Notation "m ;;; k" := (bind m (fun _ => k))
  (at level 100, right associativity).

Definition result_of {A W} (r : Outcome A * W * list Event) : Outcome A := r.1.1.
Definition trace_of {A W} (r : Outcome A * W * list Event) : list Event := r.2.

(** ** The engine *)

Section Engine.
Context `{Platform}.

(** One of the five blocks of [isAllowed]: [true] when the check passes
    and the function goes on, [false] when it returns [false].
    [minimatch] throws on a pattern that is not a string. *)
Definition check (key variable actual : string) (data : JsValue) : M bool :=
  debug (DbgCheck key) ;;;
  present <- lift (js_in key data) ;;
  if present then
    let pattern := js_index key data in
    debug (DbgValue key pattern) ;;;
    matched <- lift (match pattern with
                     | Some (JStr p) => Ok (minimatch actual p)
                     | _ => Throw (TypeError "invalid pattern")
                     end) ;;
    if negb matched then
      debug (DbgDenied variable actual) ;;;
      ret false
    else
      debug (DbgMatched key) ;;;
      ret true
  else
    debug (DbgMissing key) ;;;
    ret false.

Definition isAllowed (data : JsValue) : M bool :=
  emit (EvIsAllowed data) ;;;
  ok <- check "x-k8s-podname" "JOB_POD_NAME" (JOB_POD_NAME process_env) data ;;
  if negb ok then ret false else
  ok <- check "x-k8s-namespace" "JOB_POD_NAMESPACE" (JOB_POD_NAMESPACE process_env) data ;;
  if negb ok then ret false else
  ok <- check "x-k8s-serviceaccount" "JOB_POD_SERVICEACCOUNT" (JOB_POD_SERVICEACCOUNT process_env) data ;;
  if negb ok then ret false else
  ok <- check "x-github-actor" "GITHUB_ACTOR" (GITHUB_ACTOR process_env) data ;;
  if negb ok then ret false else
  ok <- check "x-github-repo" "GITHUB_REPOSITORY" (GITHUB_REPOSITORY process_env) data ;;
  if negb ok then ret false else
  debug DbgAuthorized ;;;
  ret true.

(** [!result] on what [JSON.stringify] returned. *)
Definition falsy (result : option string) : bool :=
  match result with
  | None => true
  | Some s => String.eqb s EmptyString
  end.

Definition selector_not_found (selector : string) : string :=
  "Unable to retrieve result for " +:+ selector +:+
  ". No match data was found. Double check your Key or Selector.".

(** The end of [selectData]: a serialised string is parsed back, anything
    else is returned as serialised; [startsWith] cannot be read from
    [undefined]. *)
Definition unwrap (result : option string) : Outcome JSON :=
  match result with
  | None => Throw (TypeError "Cannot read properties of undefined (reading 'startsWith')")
  | Some s => if startsWith s dquote then JSON_parse s else Ok (JStr s)
  end.

(** [selectData] has no effect but its exception. *)
Definition selectData (data : JSON) (selector : string) : Outcome JSON :=
  ata <~ jsonata selector ;;
  evaluated <~ evaluate ata data ;;
  let result := JSON_stringify <$> evaluated in
  compat <~ (if falsy result
                && ((String.eqb (ast_type ata) "path" && Nat.eqb (ast_steps_length ata) 1)
                    || String.eqb (ast_type ata) "string")
                && negb (String.eqb selector "data")
             then js_in "data" (Some data)
             else Ok false) ;;
  result <~ (if compat then
               ata' <~ jsonata ("data." +:+ selector) ;;
               evaluated' <~ evaluate ata' data ;;
               Ok (JSON_stringify <$> evaluated')
             else if falsy result then
               Throw (Error (selector_not_found selector))
             else Ok result) ;;
  unwrap result.

(** The syntactic part of the condition of the compatibility branch. *)
Definition single_step (ata : Expr) : bool :=
  (String.eqb (ast_type ata) "path" && Nat.eqb (ast_steps_length ata) 1)
  || String.eqb (ast_type ata) "string".

(** A call of [selectData], recorded. *)
Definition call_selectData (data : JSON) (selector : string) : M JSON :=
  emit (EvSelectData data selector) ;;;
  lift (selectData data selector).

(** The selector [selectAndAppendResults] hands to [selectData]. *)
Definition build_selector (nested : bool) (selector : string) : string :=
  let selector :=
    if negb (includes_dot selector) then dquote +:+ selector +:+ dquote
    else selector in
  let selector := "data." +:+ selector in
  if nested then "data." +:+ selector else selector.

Definition selectAndAppendResults (selector : string) (body : JSON)
    (cachedResponse : bool) (secretRequest : SecretRequest)
    (results : list SecretResponse) : M (list SecretResponse) :=
  body_data <- lift (prop_data (Some body)) ;;
  inner <- lift (prop_data body_data) ;;
  let selector := build_selector (not_nullish inner) selector in
  value <- call_selectData body selector ;;
  ret (results ++ [ {| request := secretRequest;
                       value := value;
                       cachedResponse := cachedResponse |} ]).

Definition reserved (key : string) : bool :=
  startsWith key "x-k8s-" || startsWith key "x-github-".

(** The request derived from a wildcard request for [key]. *)
Definition newRequest (secretRequest : SecretRequest) (upperCaseEnv : bool)
    (key : string) : SecretRequest :=
  let same := String.eqb (selector secretRequest) (outputVarName secretRequest) in
  let out := if same then key else outputVarName secretRequest +:+ key in
  let env := if same then key else envVarName secretRequest +:+ key in
  {| path := path secretRequest;
     selector := key;
     outputVarName := normalizeOutputKey out false;
     envVarName := normalizeOutputKey env upperCaseEnv |}.

(** The selector of a key: in backticks when the key has a dot. *)
Definition wildcard_selector (key : string) : string :=
  if includes_dot key then backtick +:+ key +:+ backtick else key.

(** The body of [for (let key in keys)]. *)
Fixpoint expand (keys : list string) (secretRequest : SecretRequest)
    (upperCaseEnv : bool) (body : JSON) (cachedResponse : bool)
    (results : list SecretResponse) : M (list SecretResponse) :=
  match keys with
  | [] => ret results
  | key :: keys' =>
      if reserved key then
        expand keys' secretRequest upperCaseEnv body cachedResponse results
      else
        results <- selectAndAppendResults (wildcard_selector key) body cachedResponse
                     (newRequest secretRequest upperCaseEnv key) results ;;
        expand keys' secretRequest upperCaseEnv body cachedResponse results
  end.

Definition not_found_msg (path : string) (response_body : string) : string :=
  "Unable to retrieve result for " +:+ dquote +:+ path +:+ dquote +:+
  " because it was not found: " +:+ String_trim response_body.

Definition ignoreNotFound : bool :=
  let input := core_getInput "ignoreNotFound" in
  negb (String.eqb (toLowerCase (if String.eqb input EmptyString then "false" else input))
                   "false").

(** How one iteration of [for (const secretRequest of secretRequests)]
    ends: with the next iteration, or with [return]. *)
Inductive Step : Type :=
| Next (responseCache : gmap string string) (results : list SecretResponse)
| Return (results : list SecretResponse).

Definition get (requestPath : string) : M (string + HTTPError) :=
fun w =>
  let '(answer, w') := client_get w requestPath in
  (Ok answer, w', [EvGet requestPath answer]).

(** What the first half of an iteration leaves: a body, whether it came
    from the cache, and the cache; or nothing, after [continue]. *)
Inductive Fetched : Type :=
| Body (body : string) (cachedResponse : bool) (responseCache : gmap string string)
| Skipped.

(** The iteration up to the end of the [try]. *)
Definition fetch (secretRequest : SecretRequest)
    (responseCache : gmap string string) : M Fetched :=
  let requestPath := "v1/" +:+ path secretRequest in
  match responseCache !! requestPath with
  | Some body => ret (Body body true responseCache)
  | None =>
      answer <- get requestPath ;;
      match answer with
      | inl body => ret (Body body false (<[requestPath := body]> responseCache))
      | inr error =>
          match response error with
          | Some r =>
              if Z.eqb (statusCode r) 404 then
                let notFoundMsg := not_found_msg (path secretRequest) (body r) in
                if ignoreNotFound then
                  emit (EvError (String "226" (String "156" (String "152" " "))
                                 +:+ notFoundMsg)) ;;;
                  ret Skipped
                else throw (Error notFoundMsg)
              else throw (TransportError error)
          | None => throw (TransportError error)
          end
      end
  end.

(** The iteration from [body = JSON.parse(body)] on. [upperCaseEnv] is
    assigned before each of its uses. *)
Definition resolve (secretRequest : SecretRequest) (body : string)
    (cachedResponse : bool) (responseCache : gmap string string)
    (results : list SecretResponse) : M Step :=
  body <- lift (JSON_parse body) ;;
  body_data <- lift (prop_data (Some body)) ;;
  inner <- lift (prop_data body_data) ;;
  allowed <- isAllowed inner ;;
  if negb allowed then ret (Return []) else
  if String.eqb (selector secretRequest) WILDCARD
     || String.eqb (selector secretRequest) WILDCARD_UPPERCASE then
    let upperCaseEnv := String.eqb (selector secretRequest) WILDCARD_UPPERCASE in
    let keys := if not_nullish inner then inner else body_data in
    results <- expand (forin_keys keys) secretRequest upperCaseEnv body
                 cachedResponse results ;;
    ret (Next responseCache results)
  else
    results <- selectAndAppendResults (selector secretRequest) body
                 cachedResponse secretRequest results ;;
    ret (Next responseCache results).

Definition iteration (secretRequest : SecretRequest)
    (responseCache : gmap string string) (results : list SecretResponse)
    : M Step :=
  fetched <- fetch secretRequest responseCache ;;
  match fetched with
  | Body body cachedResponse responseCache =>
      resolve secretRequest body cachedResponse responseCache results
  | Skipped => ret (Next responseCache results)
  end.

(** The [for] loop: it ends after the last request, or with the [return]
    of an iteration. *)
Fixpoint loop (secretRequests : list SecretRequest)
    (responseCache : gmap string string) (results : list SecretResponse)
    : M Step :=
  match secretRequests with
  | [] => ret (Next responseCache results)
  | secretRequest :: rest =>
      step <- iteration secretRequest responseCache results ;;
      match step with
      | Next responseCache results => loop rest responseCache results
      | Return results => ret (Return results)
      end
  end.

(** What [getSecrets] returns: the [results] the loop ended with, or the
    value of the [return] inside it. *)
Definition returned (step : Step) : list SecretResponse :=
  match step with
  | Next _ results => results
  | Return results => results
  end.

Definition getSecrets (secretRequests : list SecretRequest)
    : M (list SecretResponse) :=
  step <- loop secretRequests ∅ [] ;;
  ret (returned step).
End Engine.

(** ** A concrete platform

    A table-driven transport and small stand-ins for the imported
    libraries, on which the engine can be run. *)
Module Fixture.

(** Serialisation of a document whose strings need no escaping. *)
Fixpoint stringify (v : JSON) : string :=
  match v with
  | JNull => "null"
  | JBool b => if b then "true" else "false"
  | JNum rendering => rendering
  | JStr s => dquote +:+ s +:+ dquote
  | JArr items =>
      "[" +:+ (fix go (first : bool) (l : list JSON) : string :=
                 match l with
                 | [] => EmptyString
                 | x :: l' => (if first then EmptyString else ",") +:+ stringify x +:+ go false l'
                 end) true items +:+ "]"
  | JObj props =>
      "{" +:+ (fix go (first : bool) (l : list (string * JSON)) : string :=
                 match l with
                 | [] => EmptyString
                 | (k, x) :: l' =>
                     (if first then EmptyString else ",") +:+ dquote +:+ k +:+ dquote +:+ ":"
                     +:+ stringify x +:+ go false l'
                 end) true props +:+ "}"
  end.

(** Parsing by table: a quoted string, or one of the known documents. *)
Definition parse (documents : list JSON) (text : string) : Outcome JSON :=
  if startsWith text dquote && (2 <=? String.length text)%nat then
    Ok (JStr (String.substring 1 (String.length text - 2) text))
  else
    match List.find (fun d => String.eqb (stringify d) text) documents with
    | Some d => Ok d
    | None => Throw (SyntaxError text)
    end.

(** Glob matching with [*] and [?]. *)
Fixpoint glob (pattern subject : string) : bool :=
  match pattern with
  | EmptyString => String.eqb subject EmptyString
  | String p pattern' =>
      if Ascii.eqb p "*"%char then
        (fix star (s : string) : bool :=
           glob pattern' s ||
           match s with
           | EmptyString => false
           | String _ s' => star s'
           end) subject
      else
        match subject with
        | EmptyString => false
        | String c subject' =>
            (Ascii.eqb p "?"%char || Ascii.eqb p c) && glob pattern' subject'
        end
  end.

(** Field paths: names, backticked names and string literals joined by
    dots. *)
Fixpoint split_path (s : string) (quote : option ascii) (current : string)
    : list string :=
  match s with
  | EmptyString => [current]
  | String c rest =>
      let current' := current +:+ String c EmptyString in
      match quote with
      | Some q =>
          split_path rest (if Ascii.eqb c q then None else quote) current'
      | None =>
          if Ascii.eqb c "."%char then current :: split_path rest None EmptyString
          else if Ascii.eqb c "034"%char || Ascii.eqb c "`"%char
          then split_path rest (Some c) current'
          else split_path rest None current'
      end
  end.

Inductive Segment : Type :=
| Name (s : string)
| Literal (s : string).

Definition inner (s : string) : string :=
  String.substring 1 (String.length s - 2) s.

Definition segment (raw : string) : option Segment :=
  if String.eqb raw EmptyString then None
  else if startsWith raw dquote then
    if (2 <=? String.length raw)%nat
       && String.eqb (String.substring (String.length raw - 1) 1 raw) dquote
    then Some (Literal (inner raw)) else None
  else if startsWith raw backtick then
    if (2 <=? String.length raw)%nat
       && String.eqb (String.substring (String.length raw - 1) 1 raw) backtick
    then Some (Name (inner raw)) else None
  else Some (Name raw).

Definition compile (expr : string) : Outcome (list Segment) :=
  match mapM segment (split_path expr None EmptyString) with
  | Some steps => Ok steps
  | None => Throw (JsonataError "S0201")
  end.

Definition segment_name (s : Segment) : string :=
  match s with Name n | Literal n => n end.

Fixpoint navigate (steps : list Segment) (v : JsValue) : JsValue :=
  match steps with
  | [] => v
  | s :: steps' =>
      match v with
      | Some (JObj props) => navigate steps' (assoc (segment_name s) props)
      | _ => undefined
      end
  end.

Definition eval (steps : list Segment) (data : JSON) : Outcome JsValue :=
  match steps with
  | [Literal s] => Ok (Some (JStr s))
  | _ => Ok (navigate steps (Some data))
  end.

Definition type_of (steps : list Segment) : string :=
  match steps with
  | [Literal _] => "string"
  | _ => "path"
  end.

Definition upper_ascii (c : ascii) : ascii :=
  let n := nat_of_ascii c in
  if (97 <=? n)%nat && (n <=? 122)%nat then ascii_of_nat (n - 32) else c.

Fixpoint toUpperCase (s : string) : string :=
  match s with
  | EmptyString => EmptyString
  | String c rest => String (upper_ascii c) (toUpperCase rest)
  end.

Definition identifier_char (c : ascii) : bool :=
  let n := nat_of_ascii c in
  ((48 <=? n) && (n <=? 57) || (65 <=? n) && (n <=? 90)
   || (97 <=? n) && (n <=? 122) || (n =? 95))%nat.

Fixpoint keep_identifier (s : string) : string :=
  match s with
  | EmptyString => EmptyString
  | String c rest =>
      if identifier_char c then String c (keep_identifier rest)
      else keep_identifier rest
  end.

(** The transport answers from a table; a path that is not in the table is
    a 404. The world counts the calls made. *)
Definition transport (table : list (string * (string + HTTPError)))
    (calls : nat) (requestPath : string) : (string + HTTPError) * nat :=
  match List.find (fun e => String.eqb e.1 requestPath) table with
  | Some e => (e.2, S calls)
  | None => (inr {| response := Some {| statusCode := 404; body := "no such secret" |} |},
             S calls)
  end.

Definition context : AuthorizationContext :=
  {| JOB_POD_NAME := "pod-123";
     JOB_POD_NAMESPACE := "ci";
     GITHUB_ACTOR := "octocat";
     JOB_POD_SERVICEACCOUNT := "runner";
     GITHUB_REPOSITORY := "acme/shop" |}.

Definition platform (ignore_input : string) (documents : list JSON)
    (table : list (string * (string + HTTPError))) : Platform :=
  {| World := nat;
     client_get := transport table;
     core_getInput := fun name =>
       if String.eqb name "ignoreNotFound" then ignore_input else EmptyString;
     process_env := context;
     minimatch := fun subject pattern => glob pattern subject;
     JSON_parse := parse documents;
     JSON_stringify := stringify;
     String_trim := fun s => s;
     String_toUpperCase := toUpperCase;
     Expr := list Segment;
     jsonata := compile;
     ast_type := type_of;
     ast_steps_length := @length Segment;
     evaluate := eval;
     WILDCARD := "**";
     WILDCARD_UPPERCASE := "*";
     sanitize := keep_identifier |}.

(** The authorization attributes of a secret every fixture identity may
    read. *)
Definition open_acl : list (string * JSON) :=
  [ ("x-k8s-podname", JStr "pod-*");
    ("x-k8s-namespace", JStr "ci");
    ("x-k8s-serviceaccount", JStr "*");
    ("x-github-actor", JStr "octo???");
    ("x-github-repo", JStr "acme/*") ].

Definition nested (props : list (string * JSON)) : JSON :=
  JObj [ ("data", JObj [ ("data", JObj props); ("metadata", JObj []) ]) ].

Definition flat (props : list (string * JSON)) : JSON :=
  JObj [ ("data", JObj props) ].

Definition doc_app : JSON :=
  nested ([ ("user", JStr "admin"); ("port", JNum "5432") ] ++ open_acl).

Definition doc_keys : JSON :=
  nested ([ ("a", JStr "1"); ("b", JStr "2") ] ++ open_acl
          ++ [ ("x-k8s-foo", JStr "3"); ("c.d", JStr "4") ]).

(** A secret that names another pod. *)
Definition doc_other : JSON :=
  nested [ ("token", JStr "t0p");
           ("x-k8s-podname", JStr "other-*");
           ("x-k8s-namespace", JStr "ci");
           ("x-k8s-serviceaccount", JStr "*");
           ("x-github-actor", JStr "octo???");
           ("x-github-repo", JStr "acme/*") ].

Definition doc_flat : JSON :=
  flat ([ ("foo", JStr "bar") ] ++ open_acl).

Definition documents : list JSON := [doc_app; doc_keys; doc_other; doc_flat].

Definition server_error : HTTPError :=
  {| response := Some {| statusCode := 500; body := "boom" |} |}.

Definition table : list (string * (string + HTTPError)) :=
  [ ("v1/secret/data/app", inl (stringify doc_app));
    ("v1/secret/data/keys", inl (stringify doc_keys));
    ("v1/secret/data/other", inl (stringify doc_other));
    ("v1/secret/data/flat", inl (stringify doc_flat));
    ("v1/secret/data/broken", inr server_error) ].

Definition strict : Platform := platform EmptyString documents table.
Definition lenient : Platform := platform "true" documents table.

Definition req (p s : string) : SecretRequest :=
  {| path := p; selector := s; outputVarName := s; envVarName := s |}.

(** A secret whose namespace is another one. *)
Definition other_namespace : JsValue :=
  Some (JObj [ ("x-k8s-podname", JStr "pod-*");
               ("x-k8s-namespace", JStr "prod");
               ("x-k8s-serviceaccount", JStr "*") ]).

(** A wildcard request with a prefix for its names. *)
Definition prefixed : SecretRequest :=
  {| path := "secret/data/keys"; selector := "*";
     outputVarName := "db_"; envVarName := "db_" |}.

(** The cache after [secret/data/app] has been fetched. *)
Definition warm : gmap string string :=
  <["v1/secret/data/app" := stringify doc_app]> ∅.

(** Two requests for a secret the store does not have. *)
Definition missing_twice : list SecretRequest :=
  [ req "secret/data/nope" "foo"; req "secret/data/nope" "foo" ].

(** A secret whose pod name is a number, not a pattern. *)
Definition numeric_pod_name : JsValue :=
  Some (JObj [ ("x-k8s-podname", JNum "5");
               ("x-k8s-namespace", JStr "ci");
               ("x-k8s-serviceaccount", JStr "*");
               ("x-github-actor", JStr "octo???");
               ("x-github-repo", JStr "acme/*") ]).

(** A secret every fixture identity may read, with a key that holds a
    backtick and a dot. *)
Definition doc_awkward : JSON :=
  nested ([ ("a`.b", JStr "1") ] ++ open_acl).

Definition awkward : Platform :=
  platform EmptyString [doc_awkward]
    [ ("v1/secret/data/awkward", inl (stringify doc_awkward)) ].

End Fixture.


(** ** Reading a trace *)

(** The attributes [isAllowed] examined, by its ['check <key>'] lines. *)
Fixpoint checked (t : list Event) : list string :=
  match t with
  | [] => []
  | EvDebug (DbgCheck key) :: t' => key :: checked t'
  | _ :: t' => checked t'
  end.

(** The lines with which [isAllowed] announces that it returns [false]. *)
Definition is_denial (e : Event) : bool :=
  match e with
  | EvDebug (DbgDenied _ _) | EvDebug (DbgMissing _) => true
  | _ => false
  end.

Definition is_debug (e : Event) : bool :=
  match e with EvDebug _ => true | _ => false end.

(** The transport calls of a run, in order. *)
Fixpoint gets (t : list Event) : list string :=
  match t with
  | [] => []
  | EvGet requestPath _ :: t' => requestPath :: gets t'
  | _ :: t' => gets t'
  end.

(** The paths for which the transport returned a body, in order. *)
Fixpoint fetched (t : list Event) : list string :=
  match t with
  | [] => []
  | EvGet requestPath (inl _) :: t' => requestPath :: fetched t'
  | _ :: t' => fetched t'
  end.

(** The number of transport calls for a path, and the number of those
    that returned a body. *)
Abbreviation calls_of t p := (count_occ string_dec (gets t) p).
Abbreviation bodies_of t p := (count_occ string_dec (fetched t) p).

(** The selectors handed to [selectData], in order. *)
Fixpoint selected (t : list Event) : list string :=
  match t with
  | [] => []
  | EvSelectData _ sel :: t' => sel :: selected t'
  | _ :: t' => selected t'
  end.

(** ** Reading a payload *)

(** [body.data.data]. *)
Definition inner_of (body : JSON) : Outcome JsValue :=
  body_data <~ prop_data (Some body) ;;
  prop_data body_data.

(** A key that is not skipped by the expansion of a wildcard. *)
Definition eligible (key : string) : bool := negb (reserved key).

Definition outcome_map {A B} (f : A -> B) (o : Outcome A) : Outcome B :=
  match o with
  | Ok a => Ok (f a)
  | Throw e => Throw e
  end.

Definition is_select (e : Event) : bool :=
  match e with EvSelectData _ _ => true | _ => false end.

Section Produced.
Context `{Platform}.

(** The selector the engine evaluates for a key of a wildcard. *)
Definition key_selector (body : JSON) (key : string) : Outcome string :=
  inner <~ inner_of body ;;
  Ok (build_selector (not_nullish inner) (wildcard_selector key)).

Definition is_wildcard (secretRequest : SecretRequest) : bool :=
  String.eqb (selector secretRequest) WILDCARD
  || String.eqb (selector secretRequest) WILDCARD_UPPERCASE.

(** What an iteration does with a payload the gate has allowed. *)
Definition extract (secretRequest : SecretRequest) (body : JSON) (inner : JsValue)
    (cached : bool) (results : list SecretResponse) : M (list SecretResponse) :=
  if is_wildcard secretRequest then
    expand (forin_keys inner) secretRequest
      (String.eqb (selector secretRequest) WILDCARD_UPPERCASE) body cached results
  else
    selectAndAppendResults (selector secretRequest) body cached secretRequest results.

(** [r] is the result of expanding a wildcard request at [key]. *)
Definition produced (secretRequest : SecretRequest) (upperCaseEnv : bool)
    (body : JSON) (cached : bool) (key : string) (r : SecretResponse) : Prop :=
  request r = newRequest secretRequest upperCaseEnv key /\
  cachedResponse r = cached /\
  exists built, key_selector body key = Ok built /\
    selectData body built = Ok (value r).

End Produced.

(** A string occurs in another. *)
Definition occurs_in (part whole : string) : Prop :=
  exists before after, whole = before +:+ part +:+ after.

(** ** The authorization gate, attribute by attribute *)

Section Gate.
Context `{Platform}.

(** The five attributes in the order of [isAllowed]: the key of the
    secret, the variable of the context and its value. *)
Definition attributes : list (string * string * string) :=
  [ ("x-k8s-podname", "JOB_POD_NAME", JOB_POD_NAME process_env);
    ("x-k8s-namespace", "JOB_POD_NAMESPACE", JOB_POD_NAMESPACE process_env);
    ("x-k8s-serviceaccount", "JOB_POD_SERVICEACCOUNT", JOB_POD_SERVICEACCOUNT process_env);
    ("x-github-actor", "GITHUB_ACTOR", GITHUB_ACTOR process_env);
    ("x-github-repo", "GITHUB_REPOSITORY", GITHUB_REPOSITORY process_env) ].

Definition attribute_key (a : string * string * string) : string := a.1.1.

(** The checks of [isAllowed] as a walk over a list of attributes. *)
Fixpoint gate (attrs : list (string * string * string)) (data : JsValue) : M bool :=
  match attrs with
  | [] => debug DbgAuthorized ;;; ret true
  | (key, variable, actual) :: attrs' =>
      ok <- check key variable actual data ;;
      if negb ok then ret false else gate attrs' data
  end.

(** The attribute is in the secret and its pattern matches the value of
    the context. *)
Definition passes (data : JsValue) (a : string * string * string) : bool :=
  match data with
  | Some (JObj props) =>
      match assoc (attribute_key a) props with
      | Some (JStr pattern) => minimatch a.2 pattern
      | _ => false
      end
  | _ => false
  end.

(** The attribute is missing from the secret, or its pattern does not
    match the value of the context. *)
Definition fails (data : JsValue) (a : string * string * string) : bool :=
  match data with
  | Some (JObj props) =>
      match assoc (attribute_key a) props with
      | None => true
      | Some (JStr pattern) => negb (minimatch a.2 pattern)
      | Some _ => false
      end
  | Some (JArr _) => true
  | _ => false
  end.

End Gate.

(** ** More readings of a trace *)

(** The bodies the transport returned, each with its path, in order. *)
Fixpoint received (t : list Event) : list (string * string) :=
  match t with
  | [] => []
  | EvGet requestPath (inl text) :: t' => (requestPath, text) :: received t'
  | _ :: t' => received t'
  end.

(** The payloads handed to [isAllowed], in order. *)
Fixpoint gated (t : list Event) : list JsValue :=
  match t with
  | [] => []
  | EvIsAllowed data :: t' => data :: gated t'
  | _ :: t' => gated t'
  end.

(** The last event of the trace is a denial line of [isAllowed], and there
    is no other. *)
Definition ends_in_denial (t : list Event) : Prop :=
  exists before e,
    t = before ++ [e] /\ is_denial e = true /\ existsb is_denial before = false.

(** The first step of [selectAndAppendResults]: a selector with no dot
    becomes a string literal. *)
Definition quote_selector (selector : string) : string :=
  if includes_dot selector then selector else dquote +:+ selector +:+ dquote.

Section Derived.
Context `{Platform}.

(** The attribute is in the secret and its value is not a string: not a
    pattern [minimatch] takes. *)
Definition breaks (data : JsValue) (a : string * string * string) : bool :=
  match data with
  | Some (JObj props) =>
      match assoc (attribute_key a) props with
      | None | Some (JStr _) => false
      | Some _ => true
      end
  | _ => false
  end.

(** The request derived for a key, in the words of the specification:
    the names are the key when the selector of the original request
    equals its [outputVarName], and otherwise the original names with the
    key appended; both are normalized, and [envVarName] is upper-cased as
    well when the selector is the upper-case wildcard. *)
Definition derived_request (secretRequest : SecretRequest) (key : string)
    : SecretRequest :=
  let same := String.eqb (selector secretRequest) (outputVarName secretRequest) in
  let out := if same then key else outputVarName secretRequest +:+ key in
  let env := if same then key else envVarName secretRequest +:+ key in
  {| path := path secretRequest;
     selector := key;
     outputVarName := normalizeOutputKey out false;
     envVarName :=
       if String.eqb (selector secretRequest) WILDCARD_UPPERCASE
       then String_toUpperCase (normalizeOutputKey env false)
       else normalizeOutputKey env false |}.

(** One selection after the other, each for the request derived for its
    key. *)
Fixpoint select_each (keys : list string) (secretRequest : SecretRequest)
    (body : JSON) (cached : bool) (results : list SecretResponse)
    : M (list SecretResponse) :=
  match keys with
  | [] => ret results
  | key :: keys' =>
      results <- selectAndAppendResults (wildcard_selector key) body cached
                   (derived_request secretRequest key) results ;;
      select_each keys' secretRequest body cached results
  end.

End Derived.

Section Block.
Context `{Platform}.

(** The results one request contributes to a batch that goes on: they
    carry its path, and for a request that is not a wildcard there is one,
    for the request itself, or none when the request was skipped under the
    ignore-not-found policy. *)
Definition block_of (secretRequest : SecretRequest) (block : list SecretResponse) : Prop :=
  Forall (fun x => path (request x) = path secretRequest) block /\
  (is_wildcard secretRequest = false ->
     (block = [] /\ ignoreNotFound = true) \/
     exists v b, block = [ {| request := secretRequest; value := v;
                              cachedResponse := b |} ]).

End Block.

(** ** Proofs *)

(** The engine on the fixture. *)

Example glob_pod_name :
  Fixture.glob "pod-*" "pod-123" = true /\ Fixture.glob "pod-*" "other-123" = false.
Proof. split; reflexivity. Qed.

(** One transport call for two requests of one path; the second result
    comes from the cache. *)
Example same_path_twice :
  let run := @getSecrets Fixture.strict
               [ Fixture.req "secret/data/app" "user";
                 Fixture.req "secret/data/app" "port" ] 0%nat in
  result_of run =
    Ok [ {| request := Fixture.req "secret/data/app" "user";
            value := JStr "admin"; cachedResponse := false |};
         {| request := Fixture.req "secret/data/app" "port";
            value := JStr "5432"; cachedResponse := true |} ] /\
  gets (trace_of run) = [ "v1/secret/data/app" ].
Proof. split; reflexivity. Qed.

(** [selectData] alone finds [foo] in both shapes of payload. *)
Example selectData_both_shapes :
  @selectData Fixture.strict (Fixture.nested [ ("foo", JStr "bar") ])
    ("data.data." +:+ dquote +:+ "foo" +:+ dquote) = Ok (JStr "bar") /\
  @selectData Fixture.strict (Fixture.flat [ ("foo", JStr "bar") ]) "foo"
    = Ok (JStr "bar").
Proof. split; reflexivity. Qed.

(** A missing secret is skipped under the policy, and fetched again when
    it is requested again. *)
Example missing_secret_skipped :
  @getSecrets Fixture.lenient Fixture.missing_twice 0%nat =
    (Ok [], 2%nat,
     [ EvGet "v1/secret/data/nope"
         (inr {| response := Some {| statusCode := 404; body := "no such secret" |} |});
       EvError (String "226" (String "156" (String "152" " "))
                +:+ @not_found_msg Fixture.lenient "secret/data/nope" "no such secret");
       EvGet "v1/secret/data/nope"
         (inr {| response := Some {| statusCode := 404; body := "no such secret" |} |});
       EvError (String "226" (String "156" (String "152" " "))
                +:+ @not_found_msg Fixture.lenient "secret/data/nope" "no such secret") ]).
Proof. reflexivity. Qed.

Ltac unfold_m := unfold bind, ret, throw, lift, emit, debug, result_of, trace_of in *.

Section MonadFacts.
Context `{Platform}.

Lemma checked_app t1 t2 : checked (t1 ++ t2) = checked t1 ++ checked t2.
Proof.
  induction t1 as [|e t1 IH]; [done|].
  destruct e as [| [] | | |]; simpl; by rewrite ?IH.
Qed.

Lemma gets_app t1 t2 : gets (t1 ++ t2) = gets t1 ++ gets t2.
Proof.
  induction t1 as [|e t1 IH]; [done|].
  destruct e; simpl; by rewrite ?IH.
Qed.

Lemma selected_app t1 t2 : selected (t1 ++ t2) = selected t1 ++ selected t2.
Proof.
  induction t1 as [|e t1 IH]; [done|].
  destruct e; simpl; by rewrite ?IH.
Qed.

End MonadFacts.

Section GateFacts.
Context `{Platform}.

Lemma isAllowed_gate data :
  isAllowed data = (emit (EvIsAllowed data) ;;; gate attributes data).
Proof. reflexivity. Qed.

(** What one check does, case by case. *)
Lemma check_cases key variable actual data w :
  check key variable actual data w =
    match js_in key data with
    | Throw e => (Throw e, w, [EvDebug (DbgCheck key)])
    | Ok false => (Ok false, w, [EvDebug (DbgCheck key); EvDebug (DbgMissing key)])
    | Ok true =>
        match js_index key data with
        | Some (JStr p) =>
            if minimatch actual p
            then (Ok true, w, [EvDebug (DbgCheck key);
                               EvDebug (DbgValue key (Some (JStr p)));
                               EvDebug (DbgMatched key)])
            else (Ok false, w, [EvDebug (DbgCheck key);
                                EvDebug (DbgValue key (Some (JStr p)));
                                EvDebug (DbgDenied variable actual)])
        | other => (Throw (TypeError "invalid pattern"), w,
                    [EvDebug (DbgCheck key); EvDebug (DbgValue key other)])
        end
    end.
Proof.
  unfold check. unfold_m.
  destruct (js_in key data) as [[]|]; simpl; try done.
  destruct (js_index key data) as [[]|]; simpl; try done.
  by destruct (minimatch actual s).
Qed.

Lemma check_passes key variable actual data w :
  passes data (key, variable, actual) = true ->
  exists t, check key variable actual data w = (Ok true, w, t) /\ checked t = [key].
Proof.
  intros Hp. rewrite check_cases. unfold passes, attribute_key in Hp. simpl in Hp.
  destruct data as [[]|]; try done. simpl.
  destruct (assoc key props) as [[]|] eqn:Ha; try done. simpl in *.
  rewrite Hp. eauto.
Qed.

Lemma check_fails key variable actual data w :
  fails data (key, variable, actual) = true ->
  exists t, check key variable actual data w = (Ok false, w, t) /\ checked t = [key].
Proof.
  intros Hp. rewrite check_cases. unfold fails, attribute_key in Hp. simpl in Hp.
  destruct data as [[]|]; try done; simpl; [eauto|].
  destruct (assoc key props) as [[]|] eqn:Ha; try done; simpl in *; [|eauto].
  destruct (minimatch actual s); [done|eauto].
Qed.

Lemma check_true key variable actual data w w' t :
  check key variable actual data w = (Ok true, w', t) ->
  passes data (key, variable, actual) = true.
Proof.
  rewrite check_cases. unfold passes, attribute_key. simpl.
  destruct data as [[]|]; simpl; try done.
  destruct (assoc key props) as [[]|]; simpl; try done.
  by destruct (minimatch actual s).
Qed.

Lemma check_checked key variable actual data w :
  checked (check key variable actual data w).2 = [key].
Proof.
  rewrite check_cases.
  destruct (js_in key data) as [[]|]; try done.
  destruct (js_index key data) as [[]|]; try done.
  by destruct (minimatch actual s).
Qed.

Lemma check_world key variable actual data w :
  (check key variable actual data w).1.2 = w.
Proof.
  rewrite check_cases.
  destruct (js_in key data) as [[]|]; try done.
  destruct (js_index key data) as [[]|]; try done.
  by destruct (minimatch actual s).
Qed.

(** A check that returns [false] says so in the log, and no other check
    writes such a line. *)
Lemma check_denial key variable actual data w :
  existsb is_denial (check key variable actual data w).2 = true <->
  (check key variable actual data w).1.1 = Ok false.
Proof.
  rewrite check_cases.
  destruct (js_in key data) as [[]|]; try done.
  destruct (js_index key data) as [[]|]; try done.
  by destruct (minimatch actual s).
Qed.

End GateFacts.

Section GateWalk.
Context `{Platform}.

Lemma check_false key variable actual data w w' t :
  check key variable actual data w = (Ok false, w', t) ->
  fails data (key, variable, actual) = true.
Proof.
  rewrite check_cases. unfold fails, attribute_key. simpl.
  destruct data as [[]|]; simpl; try done.
  destruct (assoc key props) as [[]|]; simpl; try done.
  by destruct (minimatch actual s).
Qed.

(** The outcome of a walk: the first check that does not pass decides. *)
Lemma gate_cons key variable actual attrs data w :
  gate ((key, variable, actual) :: attrs) data w =
    match check key variable actual data w with
    | (Ok true, w1, t1) =>
        ((gate attrs data w1).1.1, (gate attrs data w1).1.2, t1 ++ (gate attrs data w1).2)
    | (Ok false, w1, t1) => (Ok false, w1, t1 ++ [])
    | (Throw e, w1, t1) => (Throw e, w1, t1)
    end.
Proof.
  simpl. unfold bind at 1.
  destruct (check key variable actual data w) as [[[[]|] w1] t1]; simpl; try done.
  by destruct (gate attrs data w1) as [[??]?].
Qed.

Lemma gate_world attrs data w : (gate attrs data w).1.2 = w.
Proof.
  induction attrs as [|[[key variable] actual] attrs IH]; [done|].
  rewrite gate_cons. pose proof (check_world key variable actual data w) as Hw.
  destruct (check key variable actual data w) as [[[[]|] w1] t1]; simpl in *; subst; done.
Qed.

Lemma gate_checked attrs data w :
  checked (gate attrs data w).2 `prefix_of` map attribute_key attrs.
Proof.
  induction attrs as [|[[key variable] actual] attrs IH]; [done|].
  rewrite gate_cons.
  pose proof (check_checked key variable actual data w) as Hc.
  pose proof (check_world key variable actual data w) as Hw.
  destruct (check key variable actual data w) as [[[[]|] w1] t1];
    simpl in *; subst; rewrite ?checked_app, ?Hc; simpl.
  - by apply prefix_cons.
  - apply prefix_cons, prefix_nil.
  - apply prefix_cons, prefix_nil.
Qed.

Lemma gate_allows attrs data w :
  (gate attrs data w).1.1 = Ok true <-> forallb (passes data) attrs = true.
Proof.
  induction attrs as [|[[key variable] actual] attrs IH]; [done|].
  rewrite gate_cons. simpl forallb. rewrite andb_true_iff, <- IH.
  pose proof (check_world key variable actual data w) as Hw.
  destruct (check key variable actual data w) as [[[[]|] w1] t1] eqn:Hc;
    simpl in *; subst.
  - apply check_true in Hc. tauto.
  - apply check_false in Hc. split; [done|]. intros [Hp _].
    exfalso. revert Hc Hp. unfold passes, fails.
    destruct data as [[]|]; try done.
    destruct (assoc _ props) as [[]|]; try done.
    by destruct (minimatch _ _).
  - split; [done|]. intros [Hp _].
    destruct (check_passes key variable actual data w Hp) as (t & Ht & _).
    congruence.
Qed.

Lemma gate_allows_checked attrs data w :
  (gate attrs data w).1.1 = Ok true ->
  checked (gate attrs data w).2 = map attribute_key attrs.
Proof.
  induction attrs as [|[[key variable] actual] attrs IH]; [done|].
  rewrite gate_cons.
  pose proof (check_checked key variable actual data w) as Hc.
  pose proof (check_world key variable actual data w) as Hw.
  destruct (check key variable actual data w) as [[[[]|] w1] t1];
    simpl in *; subst; try done.
  intros Hok. rewrite checked_app, Hc, IH; done.
Qed.

(** Attributes that pass are walked over; the first one that fails ends
    the walk. *)
Lemma gate_first_failure pre a post data w :
  forallb (passes data) pre = true ->
  fails data a = true ->
  (gate (pre ++ a :: post) data w).1.1 = Ok false /\
  checked (gate (pre ++ a :: post) data w).2 = map attribute_key pre ++ [attribute_key a].
Proof.
  intros Hpre Hfail.
  induction pre as [|[[key variable] actual] pre IH]; simpl app.
  - destruct a as [[key variable] actual]. rewrite gate_cons.
    destruct (check_fails key variable actual data w Hfail) as (t & -> & Ht).
    simpl. by rewrite app_nil_r.
  - simpl in Hpre. apply andb_true_iff in Hpre as [Hp Hpre].
    rewrite gate_cons.
    destruct (check_passes key variable actual data w Hp) as (t & -> & Ht).
    simpl. destruct (IH Hpre) as [-> Hc]. split; [done|].
    by rewrite checked_app, Ht, Hc.
Qed.

Lemma gate_denies attrs data w :
  (gate attrs data w).1.1 = Ok false ->
  exists pre a post, attrs = pre ++ a :: post /\
    forallb (passes data) pre = true /\ fails data a = true.
Proof.
  induction attrs as [|[[key variable] actual] attrs IH]; [done|].
  rewrite gate_cons.
  pose proof (check_world key variable actual data w) as Hw.
  destruct (check key variable actual data w) as [[[[]|] w1] t1] eqn:Hc;
    simpl in *; subst; try done.
  - intros (pre & a & post & -> & Hpre & Hfail)%IH.
    exists ((key, variable, actual) :: pre), a, post. simpl.
    apply check_true in Hc. by rewrite Hc, Hpre.
  - intros _. exists [], (key, variable, actual), attrs.
    apply check_false in Hc. done.
Qed.

(** The walk logs a denial exactly when it returns [false]. *)
Lemma gate_denial attrs data w :
  existsb is_denial (gate attrs data w).2 = true <-> (gate attrs data w).1.1 = Ok false.
Proof.
  induction attrs as [|[[key variable] actual] attrs IH]; [done|].
  rewrite gate_cons.
  pose proof (check_denial key variable actual data w) as Hd.
  pose proof (check_world key variable actual data w) as Hw.
  destruct (check key variable actual data w) as [[[[]|] w1] t1];
    simpl in *; subst; rewrite ?existsb_app, ?orb_true_iff, ?app_nil_r.
  - rewrite IH. split; [|by right]. intros [Ht|Hg]; [|done].
    apply Hd in Ht. discriminate.
  - rewrite Hd. simpl. intuition.
  - exact Hd.
Qed.

Lemma isAllowed_run data w :
  isAllowed data w =
    ((gate attributes data w).1.1, w, EvIsAllowed data :: (gate attributes data w).2).
Proof.
  rewrite isAllowed_gate. unfold bind, emit.
  pose proof (gate_world attributes data w) as Hw.
  destruct (gate attributes data w) as [[r w'] t]. simpl in *. by subst.
Qed.

End GateWalk.

Section GateBreaks.
Context `{Platform}.

Lemma check_breaks key variable actual data w :
  breaks data (key, variable, actual) = true ->
  exists t, check key variable actual data w
            = (Throw (TypeError "invalid pattern"), w, t) /\ checked t = [key].
Proof.
  intros Hb. rewrite check_cases. unfold breaks, attribute_key in Hb. simpl in Hb.
  destruct data as [[]|]; try done. simpl.
  destruct (assoc key props) as [[]|] eqn:Ha; try done; simpl; eauto.
Qed.

Lemma check_throws key variable actual props w e w' t :
  check key variable actual (Some (JObj props)) w = (Throw e, w', t) ->
  breaks (Some (JObj props)) (key, variable, actual) = true /\
  e = TypeError "invalid pattern".
Proof.
  rewrite check_cases. unfold breaks, attribute_key. simpl.
  destruct (assoc key props) as [[]|]; simpl; try done; try by intros [= <- _ _].
  by destruct (minimatch actual s).
Qed.

(** Attributes that pass are walked over; the first one whose value is
    not a string ends the walk with the error of [minimatch]. *)
Lemma gate_first_break pre a post data w :
  forallb (passes data) pre = true ->
  breaks data a = true ->
  (gate (pre ++ a :: post) data w).1.1 = Throw (TypeError "invalid pattern") /\
  checked (gate (pre ++ a :: post) data w).2 = map attribute_key pre ++ [attribute_key a].
Proof.
  intros Hpre Hbreak.
  induction pre as [|[[key variable] actual] pre IH]; simpl app.
  - destruct a as [[key variable] actual]. rewrite gate_cons.
    by destruct (check_breaks key variable actual data w Hbreak) as (t & -> & Ht).
  - simpl in Hpre. apply andb_true_iff in Hpre as [Hp Hpre].
    rewrite gate_cons.
    destruct (check_passes key variable actual data w Hp) as (t & -> & Ht).
    simpl. destruct (IH Hpre) as [-> Hc]. split; [done|].
    by rewrite checked_app, Ht, Hc.
Qed.

Lemma gate_throws attrs props w e :
  (gate attrs (Some (JObj props)) w).1.1 = Throw e ->
  e = TypeError "invalid pattern" /\
  exists pre a post, attrs = pre ++ a :: post /\
    forallb (passes (Some (JObj props))) pre = true /\
    breaks (Some (JObj props)) a = true.
Proof.
  induction attrs as [|[[key variable] actual] attrs IH]; [done|].
  rewrite gate_cons.
  pose proof (check_world key variable actual (Some (JObj props)) w) as Hw.
  destruct (check key variable actual (Some (JObj props)) w) as [[[[]|e'] w1] t1] eqn:Hc;
    cbn [fst snd] in *; subst; try done.
  - intros [-> (pre & a & post & -> & Hpre & Hbreak)]%IH. split; [done|].
    exists ((key, variable, actual) :: pre), a, post. cbn [app forallb].
    apply check_true in Hc. by rewrite Hc, Hpre.
  - intros [= <-]. apply check_throws in Hc as [Hb ->]. split; [done|].
    by exists [], (key, variable, actual), attrs.
Qed.

Lemma attribute_cases props a :
  (passes (Some (JObj props)) a = true /\ fails (Some (JObj props)) a = false
   /\ breaks (Some (JObj props)) a = false) \/
  (passes (Some (JObj props)) a = false /\ fails (Some (JObj props)) a = true
   /\ breaks (Some (JObj props)) a = false) \/
  (passes (Some (JObj props)) a = false /\ fails (Some (JObj props)) a = false
   /\ breaks (Some (JObj props)) a = true).
Proof.
  unfold passes, fails, breaks.
  destruct (assoc (attribute_key a) props) as [[]|]; try tauto.
  destruct (minimatch a.2 s); tauto.
Qed.

End GateBreaks.

(** C2, as stated, does not hold of every payload object: an attribute
    that is present with a value that is not a string is handed to
    [minimatch] as it is, and [minimatch] throws. The check neither denies
    nor lets the gate go on. *)
Lemma isAllowed_non_string_pattern_counterexample :
  ~ (exists allowed,
       result_of (@isAllowed Fixture.strict Fixture.numeric_pod_name 0%nat)
       = Ok allowed).
Proof. intros [allowed Hresult]. vm_compute in Hresult. discriminate. Qed.

(** C2, amended. [isAllowed] examines the attributes x-k8s-podname,
    x-k8s-namespace, x-k8s-serviceaccount, x-github-actor and
    x-github-repo in that order and no others. It allows exactly when each
    of the five is in the secret with a pattern that matches the value of
    the context; when it allows it has examined all five. A check fails
    when the attribute is missing, or when its value is a string that, as
    a pattern, does not match: the first check that fails makes
    [isAllowed] return [false] with no later attribute examined, and
    [isAllowed] returns [false] for no other reason. An attribute of a
    payload object either passes, fails, or holds a value that is not a
    string; the first check that meets such a value, after checks that
    passed, throws the [TypeError] of [minimatch] with no later attribute
    examined, and on an object [isAllowed] throws for no other reason. *)
Theorem isAllowed_five_checks_in_order `{Platform} (data : JsValue) (w : World) :
  let keys := [ "x-k8s-podname"; "x-k8s-namespace"; "x-k8s-serviceaccount";
                "x-github-actor"; "x-github-repo" ] in
  map attribute_key attributes = keys /\
  checked (trace_of (isAllowed data w)) `prefix_of` keys /\
  (result_of (isAllowed data w) = Ok true <->
     forallb (passes data) attributes = true) /\
  (result_of (isAllowed data w) = Ok true ->
     checked (trace_of (isAllowed data w)) = keys) /\
  (forall pre a post,
     attributes = pre ++ a :: post ->
     forallb (passes data) pre = true ->
     fails data a = true ->
     result_of (isAllowed data w) = Ok false /\
     checked (trace_of (isAllowed data w)) = map attribute_key pre ++ [attribute_key a]) /\
  (result_of (isAllowed data w) = Ok false ->
     exists pre a post, attributes = pre ++ a :: post /\
       forallb (passes data) pre = true /\ fails data a = true) /\
  (forall pre a post,
     attributes = pre ++ a :: post ->
     forallb (passes data) pre = true ->
     breaks data a = true ->
     result_of (isAllowed data w) = Throw (TypeError "invalid pattern") /\
     checked (trace_of (isAllowed data w)) = map attribute_key pre ++ [attribute_key a]) /\
  (forall props,
     data = Some (JObj props) ->
     (forall a,
        (passes data a = true /\ fails data a = false /\ breaks data a = false) \/
        (passes data a = false /\ fails data a = true /\ breaks data a = false) \/
        (passes data a = false /\ fails data a = false /\ breaks data a = true)) /\
     (forall e, result_of (isAllowed data w) = Throw e ->
        e = TypeError "invalid pattern" /\
        exists pre a post, attributes = pre ++ a :: post /\
          forallb (passes data) pre = true /\ breaks data a = true)).
Proof.
  intros keys. rewrite isAllowed_run. unfold result_of, trace_of. cbn [fst snd].
  split; [done|]. split; [apply (gate_checked attributes)|].
  split; [apply gate_allows|]. split; [apply (gate_allows_checked attributes)|].
  split; [|split; [apply gate_denies|split]].
  - intros pre a post -> Hpre Hfail. by apply gate_first_failure.
  - intros pre a post -> Hpre Hbreak. by apply gate_first_break.
  - intros props ->. split; [apply attribute_cases|apply gate_throws].
Qed.

(** The pod name matches and the namespace does not: the gate stops at
    the second attribute. *)
Lemma isAllowed_five_checks_in_order_witness :
  result_of (@isAllowed Fixture.strict Fixture.other_namespace 0%nat) = Ok false /\
  checked (trace_of (@isAllowed Fixture.strict Fixture.other_namespace 0%nat))
    = [ "x-k8s-podname"; "x-k8s-namespace" ].
Proof.
  destruct (@isAllowed_five_checks_in_order Fixture.strict
              Fixture.other_namespace 0%nat)
    as (_ & _ & _ & _ & Hfirst & _).
  apply (Hfirst [ ("x-k8s-podname", "JOB_POD_NAME", "pod-123") ]
                ("x-k8s-namespace", "JOB_POD_NAMESPACE", "ci")
                [ ("x-k8s-serviceaccount", "JOB_POD_SERVICEACCOUNT", "runner");
                  ("x-github-actor", "GITHUB_ACTOR", "octocat");
                  ("x-github-repo", "GITHUB_REPOSITORY", "acme/shop") ]);
    reflexivity.
Defined.

(** ** The selector resolver *)

Section Selector.
Context `{Platform}.

Lemma selectData_primary data selector ata evaluated :
  jsonata selector = Ok ata ->
  evaluate ata data = Ok evaluated ->
  falsy (JSON_stringify <$> evaluated) = false ->
  selectData data selector = unwrap (JSON_stringify <$> evaluated).
Proof.
  intros Ha He Hf. unfold selectData. rewrite Ha. cbn [and_then].
  rewrite He. cbn [and_then]. rewrite Hf. by cbn [andb and_then].
Qed.

Lemma selectData_retry data selector ata evaluated :
  jsonata selector = Ok ata ->
  evaluate ata data = Ok evaluated ->
  falsy (JSON_stringify <$> evaluated) = true ->
  single_step ata = true ->
  selector <> "data" ->
  js_in "data" (Some data) = Ok true ->
  selectData data selector =
    (ata' <~ jsonata ("data." +:+ selector) ;;
     evaluated' <~ evaluate ata' data ;;
     unwrap (JSON_stringify <$> evaluated')).
Proof.
  intros Ha He Hf Hs Hne Hin. unfold selectData. rewrite Ha. cbn [and_then].
  rewrite He. cbn [and_then]. fold (single_step ata). rewrite Hf, Hs.
  apply String.eqb_neq in Hne. rewrite Hne. cbn [andb negb]. rewrite Hin.
  cbn [and_then]. fold unwrap.
  destruct (jsonata ("data." +:+ selector)) as [ata'|]; [cbn [and_then]|done].
  by destruct (evaluate ata' data).
Qed.

Lemma selectData_not_found data selector ata evaluated :
  jsonata selector = Ok ata ->
  evaluate ata data = Ok evaluated ->
  falsy (JSON_stringify <$> evaluated) = true ->
  single_step ata && negb (String.eqb selector "data") = false
    \/ js_in "data" (Some data) = Ok false ->
  selectData data selector = Throw (Error (selector_not_found selector)).
Proof.
  intros Ha He Hf Hno. unfold selectData. rewrite Ha. cbn [and_then].
  rewrite He. cbn [and_then]. fold (single_step ata). rewrite Hf.
  rewrite <- andb_assoc. cbn [andb].
  destruct (single_step ata && negb (String.eqb selector "data")) eqn:Hc.
  - destruct Hno as [|Hin]; [done|]. rewrite Hin. by cbn [and_then].
  - by cbn [and_then].
Qed.

End Selector.

(** C4. When the first evaluation of the selector is empty, the selector
    is a single-step path or a string literal other than [data], and the
    payload has a [data] field, [selectData] evaluates [data.<selector>]
    instead; when the first evaluation is empty and that branch does not
    apply, it throws the error that names the selector. When the branch
    applies and the second evaluation is [undefined] too, no such error is
    thrown: [selectData] fails with the [TypeError] of reading
    [startsWith] from [undefined], which does not name the selector. *)
Theorem selectData_fallback `{Platform} (data : JSON) (selector : string)
    (ata : Expr) (evaluated : JsValue) :
  jsonata selector = Ok ata ->
  evaluate ata data = Ok evaluated ->
  falsy (JSON_stringify <$> evaluated) = true ->
  (single_step ata = true -> selector <> "data" ->
   js_in "data" (Some data) = Ok true ->
     selectData data selector =
       (ata' <~ jsonata ("data." +:+ selector) ;;
        evaluated' <~ evaluate ata' data ;;
        unwrap (JSON_stringify <$> evaluated')) /\
     forall ata',
       jsonata ("data." +:+ selector) = Ok ata' ->
       evaluate ata' data = Ok undefined ->
       selectData data selector =
         Throw (TypeError "Cannot read properties of undefined (reading 'startsWith')") /\
       selectData data selector <> Throw (Error (selector_not_found selector))) /\
  (single_step ata && negb (String.eqb selector "data") = false
     \/ js_in "data" (Some data) = Ok false ->
   selectData data selector = Throw (Error (selector_not_found selector))).
Proof.
  intros Ha He Hf. split.
  - intros Hs Hne Hin.
    pose proof (selectData_retry data selector ata evaluated Ha He Hf Hs Hne Hin) as Hr.
    split; [done|]. intros ata' Ha' He'. rewrite Hr, Ha'. cbn [and_then].
    rewrite He'. done.
  - exact (selectData_not_found data selector ata evaluated Ha He Hf).
Qed.

(** [foo] on [{"data": {}}]: neither [foo] nor [data.foo] selects
    anything. *)
Lemma selectData_fallback_witness :
  @selectData Fixture.strict (JObj [ ("data", JObj []) ]) "foo"
    = Throw (TypeError "Cannot read properties of undefined (reading 'startsWith')") /\
  @selectData Fixture.strict (JObj [ ("data", JObj []) ]) "foo"
    <> Throw (Error (@selector_not_found "foo")).
Proof.
  destruct (@selectData_fallback Fixture.strict (JObj [ ("data", JObj []) ]) "foo"
              [Fixture.Name "foo"] undefined eq_refl eq_refl eq_refl) as [Hretry _].
  destruct Hretry as [_ Hundef]; [reflexivity | discriminate | reflexivity |].
  apply (Hundef [Fixture.Name "data"; Fixture.Name "foo"]); reflexivity.
Defined.

(** ** What each part of an iteration does *)

Section Runs.
Context `{Platform}.

Lemma call_selectData_run data selector w :
  call_selectData data selector w =
    (selectData data selector, w, [EvSelectData data selector]).
Proof. reflexivity. Qed.

Lemma selectAndAppendResults_run selector body cached secretRequest results w :
  selectAndAppendResults selector body cached secretRequest results w =
    match inner_of body with
    | Throw e => (Throw e, w, [])
    | Ok inner =>
        let built := build_selector (not_nullish inner) selector in
        (outcome_map
           (fun v => results ++ [ {| request := secretRequest; value := v;
                                     cachedResponse := cached |} ])
           (selectData body built),
         w, [EvSelectData body built])
    end.
Proof.
  unfold selectAndAppendResults, inner_of. unfold_m.
  destruct (prop_data (Some body)) as [body_data|]; [|done]. cbn [and_then].
  destruct (prop_data body_data) as [inner|]; [|done]. cbn -[build_selector].
  by destruct (selectData body _).
Qed.

Lemma selectAndAppendResults_world selector body cached secretRequest results w :
  (selectAndAppendResults selector body cached secretRequest results w).1.2 = w.
Proof.
  rewrite selectAndAppendResults_run. by destruct (inner_of body).
Qed.

Lemma expand_world keys secretRequest upper body cached results w :
  (expand keys secretRequest upper body cached results w).1.2 = w.
Proof.
  revert results. induction keys as [|key keys IH]; intros results; [done|].
  simpl. destruct (reserved key); [apply IH|].
  unfold bind.
  pose proof (selectAndAppendResults_world (wildcard_selector key) body cached
                (newRequest secretRequest upper key) results w) as Hw.
  destruct (selectAndAppendResults _ _ _ _ _ w) as [[[rs|] w1] t1]; simpl in *;
    subst; [|done].
  specialize (IH rs). destruct (expand keys _ _ _ _ rs w) as [[??]?]. done.
Qed.

Lemma expand_run keys secretRequest upper body cached results w :
  exists t,
    expand keys secretRequest upper body cached results w =
      ((expand keys secretRequest upper body cached results w).1.1, w, t) /\
    forallb is_select t = true /\
    forall inner, inner_of body = Ok inner ->
      selected t `prefix_of`
        map (fun k => build_selector (not_nullish inner) (wildcard_selector k))
            (filter (fun k => eligible k) keys).
Proof.
  revert results. induction keys as [|key keys IH]; intros results.
  - exists []. split; [done|]. split; [done|]. intros. apply prefix_nil.
  - simpl expand. unfold eligible. rewrite filter_cons.
    destruct (reserved key) eqn:Hr; simpl negb.
    + rewrite decide_False by (by intros []). apply IH.
    + rewrite decide_True by done.
      unfold bind. rewrite selectAndAppendResults_run.
      destruct (inner_of body) as [inner|] eqn:Hi.
      * cbn zeta. destruct (selectData body _) as [v|] eqn:Hs; cbn [outcome_map].
        -- destruct (IH (results ++ [ {| request := newRequest secretRequest upper key;
                                         value := v; cachedResponse := cached |} ]))
             as (t & Ht & Hsel & Hpre).
           rewrite Ht. cbn [fst snd]. eexists. split; [done|].
           split; [by simpl|]. intros inner' [= <-]. simpl.
           apply prefix_cons. by apply Hpre.
        -- eexists. split; [done|]. split; [done|]. intros inner' [= <-]. simpl.
           apply prefix_cons, prefix_nil.
      * exists []. split; [done|]. split; [done|]. intros. apply prefix_nil.
Qed.

(** The results of an expansion that succeeds: one for each eligible key,
    in the order of the keys, after the results there were. *)
Lemma expand_results keys secretRequest upper body cached results w results' :
  (expand keys secretRequest upper body cached results w).1.1 = Ok results' ->
  exists new, results' = results ++ new /\
    Forall2 (produced secretRequest upper body cached)
            (filter (fun k => eligible k) keys) new.
Proof.
  revert results. induction keys as [|key keys IH]; intros results.
  - simpl. intros [= <-]. exists []. by rewrite app_nil_r.
  - simpl expand. unfold eligible. rewrite filter_cons.
    destruct (reserved key) eqn:Hr; simpl negb.
    + rewrite decide_False by (by intros []). apply IH.
    + rewrite decide_True by done.
      unfold bind. rewrite selectAndAppendResults_run.
      destruct (inner_of body) as [inner|] eqn:Hi; [|done].
      cbn zeta. destruct (selectData body _) as [v|] eqn:Hs; cbn [outcome_map]; [|done].
      destruct (expand keys _ _ _ _ _ w) as [[r w'] t] eqn:He. cbn [fst snd].
      intros ->. specialize (IH (results ++ [ {| request := newRequest secretRequest upper key;
                                         value := v; cachedResponse := cached |} ])).
      rewrite He in IH. destruct (IH eq_refl) as (new & -> & Hall).
      eexists (_ :: new). rewrite <- app_assoc. split; [done|].
      constructor; [|done]. split; [done|]. split; [done|].
      exists (build_selector (not_nullish inner) (wildcard_selector key)).
      unfold key_selector. rewrite Hi. done.
Qed.

(** An expansion succeeds when each of its selections does. *)
Lemma expand_succeeds keys secretRequest upper body cached results w
    (values : string -> JSON) :
  (forall key, In key (filter (fun k => eligible k) keys) ->
     exists built, key_selector body key = Ok built /\
       selectData body built = Ok (values key)) ->
  (expand keys secretRequest upper body cached results w).1.1 =
    Ok (results ++
        map (fun key => {| request := newRequest secretRequest upper key;
                           value := values key; cachedResponse := cached |})
            (filter (fun k => eligible k) keys)).
Proof.
  revert results. induction keys as [|key keys IH]; intros results Hsel.
  - simpl. by rewrite app_nil_r.
  - revert Hsel. simpl expand. unfold eligible. rewrite filter_cons.
    destruct (reserved key) eqn:Hr; simpl negb.
    + rewrite decide_False by (by intros []). apply IH.
    + rewrite decide_True by done. intros Hsel.
      destruct (Hsel key) as (built & Hb & Hv); [by left|].
      unfold key_selector in Hb.
      unfold bind. rewrite selectAndAppendResults_run.
      destruct (inner_of body) as [inner|] eqn:Hi; [|done].
      cbn [and_then] in Hb. injection Hb as <-. cbn zeta. rewrite Hv.
      cbn [outcome_map].
      destruct (expand keys _ _ _ _ _ w) as [[r w'] t] eqn:He. cbn [fst snd].
      specialize (IH (results ++ [ {| request := newRequest secretRequest upper key;
                                         value := values key; cachedResponse := cached |} ])).
      rewrite He in IH. cbn [fst] in IH. rewrite IH.
      * simpl. by rewrite <- app_assoc.
      * intros k Hk. apply Hsel. by right.
Qed.

End Runs.

Section Iteration.
Context `{Platform}.

Lemma gate_allows_object data w :
  (gate attributes data w).1.1 = Ok true -> exists props, data = Some (JObj props).
Proof.
  intros Hg%gate_allows. simpl in Hg. apply andb_true_iff in Hg as [Hp _].
  unfold passes in Hp. destruct data as [[]|]; try done. eauto.
Qed.

Lemma extract_world secretRequest body inner cached results w :
  (extract secretRequest body inner cached results w).1.2 = w.
Proof.
  unfold extract. destruct (is_wildcard secretRequest).
  - apply expand_world.
  - apply selectAndAppendResults_world.
Qed.

Lemma extract_selects secretRequest body inner cached results w :
  forallb is_select (extract secretRequest body inner cached results w).2 = true.
Proof.
  unfold extract. destruct (is_wildcard secretRequest).
  - destruct (expand_run (forin_keys inner) secretRequest
                (String.eqb (selector secretRequest) WILDCARD_UPPERCASE)
                body cached results w) as (t & -> & Ht & _). done.
  - rewrite selectAndAppendResults_run. by destruct (inner_of body).
Qed.

(** The second half of an iteration, case by case. *)
Lemma resolve_run secretRequest text cached cache results w :
  resolve secretRequest text cached cache results w =
    match JSON_parse text with
    | Throw e => (Throw e, w, [])
    | Ok body =>
        match inner_of body with
        | Throw e => (Throw e, w, [])
        | Ok inner =>
            match result_of (isAllowed inner w) with
            | Throw e => (Throw e, w, trace_of (isAllowed inner w))
            | Ok false => (Ok (Return []), w, trace_of (isAllowed inner w))
            | Ok true =>
                let x := extract secretRequest body inner cached results w in
                (outcome_map (Next cache) x.1.1, w, trace_of (isAllowed inner w) ++ x.2)
            end
        end
    end.
Proof.
  unfold resolve, inner_of. unfold bind at 1. unfold lift at 1.
  destruct (JSON_parse text) as [body|]; [|done].
  unfold bind at 1. unfold lift at 1.
  destruct (prop_data (Some body)) as [body_data|]; [|done]. cbn [and_then].
  unfold bind at 1. unfold lift at 1.
  destruct (prop_data body_data) as [inner|]; [|done].
  unfold bind at 1. rewrite isAllowed_run. unfold result_of, trace_of. cbn [fst snd].
  destruct ((gate attributes inner w).1.1) as [[]|] eqn:Hg; cbn [negb].
  - destruct (gate_allows_object _ _ Hg) as [props ->].
    pose proof (extract_world secretRequest body (Some (JObj props)) cached results w) as Hw.
    unfold extract in *. fold (is_wildcard secretRequest).
    cbn [not_nullish] in *.
    destruct (is_wildcard secretRequest); unfold bind at 1.
    + destruct (expand _ _ _ _ _ _ w) as [[[rs|] w1] t1];
        cbn [fst snd outcome_map] in *; subst; unfold ret; by rewrite ?app_nil_r.
    + destruct (selectAndAppendResults _ _ _ _ _ w) as [[[rs|] w1] t1];
        cbn [fst snd outcome_map] in *; subst; unfold ret; by rewrite ?app_nil_r.
  - unfold ret. cbn [app]. by rewrite ?app_nil_r.
  - done.
Qed.

Lemma fetch_hit secretRequest cache text w :
  cache !! ("v1/" +:+ path secretRequest) = Some text ->
  fetch secretRequest cache w = (Ok (Body text true cache), w, []).
Proof. intros Hc. unfold fetch. by rewrite Hc. Qed.

(** A miss asks the transport, and what comes back decides. *)
Lemma fetch_miss secretRequest cache w answer w' :
  cache !! ("v1/" +:+ path secretRequest) = None ->
  client_get w ("v1/" +:+ path secretRequest) = (answer, w') ->
  fetch secretRequest cache w =
    (match answer with
     | inl text =>
         Ok (Body text false (<["v1/" +:+ path secretRequest := text]> cache))
     | inr error =>
         match response error with
         | Some r =>
             if Z.eqb (statusCode r) 404 then
               if ignoreNotFound then Ok Skipped
               else Throw (Error (not_found_msg (path secretRequest) (body r)))
             else Throw (TransportError error)
         | None => Throw (TransportError error)
         end
     end,
     w',
     EvGet ("v1/" +:+ path secretRequest) answer ::
     match answer with
     | inr {| response := Some r |} =>
         if Z.eqb (statusCode r) 404 && ignoreNotFound
         then [EvError (String "226" (String "156" (String "152" " "))
                        +:+ not_found_msg (path secretRequest) (body r))]
         else []
     | _ => []
     end).
Proof.
  intros Hc Hg. unfold fetch. rewrite Hc. unfold bind, get. rewrite Hg.
  destruct answer as [text|[[r|]]]; simpl; try done.
  destruct (Z.eqb (statusCode r) 404); [|done].
  by destruct ignoreNotFound.
Qed.

Lemma iteration_run secretRequest cache results w :
  iteration secretRequest cache results w =
    match fetch secretRequest cache w with
    | (Ok (Body text cached cache'), w1, t1) =>
        let x := resolve secretRequest text cached cache' results w1 in
        (x.1.1, x.1.2, t1 ++ x.2)
    | (Ok Skipped, w1, t1) => (Ok (Next cache results), w1, t1 ++ [])
    | (Throw e, w1, t1) => (Throw e, w1, t1)
    end.
Proof.
  unfold iteration, bind.
  destruct (fetch secretRequest cache w) as [[[[]|] w1] t1]; try done.
  by destruct (resolve _ _ _ _ _ w1) as [[??]?].
Qed.

End Iteration.

Section Batch.
Context `{Platform}.

Lemma getSecrets_run secretRequests w :
  getSecrets secretRequests w =
    (outcome_map returned (loop secretRequests ∅ [] w).1.1,
     (loop secretRequests ∅ [] w).1.2,
     (loop secretRequests ∅ [] w).2).
Proof.
  unfold getSecrets, bind, ret.
  destruct (loop secretRequests ∅ [] w) as [[[step|] w1] t1]; cbn [fst snd outcome_map];
    by rewrite ?app_nil_r.
Qed.

Lemma loop_cons secretRequest rest cache results w :
  loop (secretRequest :: rest) cache results w =
    match iteration secretRequest cache results w with
    | (Ok (Next cache' results'), w1, t1) =>
        let x := loop rest cache' results' w1 in (x.1.1, x.1.2, t1 ++ x.2)
    | (Ok (Return results'), w1, t1) => (Ok (Return results'), w1, t1)
    | (Throw e, w1, t1) => (Throw e, w1, t1)
    end.
Proof.
  cbn [loop]. unfold bind.
  destruct (iteration secretRequest cache results w) as [[[[]|] w1] t1]; try done.
  - by destruct (loop rest _ _ w1) as [[??]?].
  - unfold ret. by rewrite app_nil_r.
Qed.

(** The requests after a prefix that ran to its end are processed from
    the cache, the results and the world the prefix left. *)
Lemma loop_app pre post cache results w cache' results' w' t :
  loop pre cache results w = (Ok (Next cache' results'), w', t) ->
  loop (pre ++ post) cache results w =
    ((loop post cache' results' w').1.1, (loop post cache' results' w').1.2,
     t ++ (loop post cache' results' w').2).
Proof.
  revert cache results w t. induction pre as [|r pre IH]; intros cache results w t.
  - cbn [loop app]. unfold ret. intros [= -> -> -> <-].
    by destruct (loop post cache' results' w') as [[??]?].
  - cbn [app]. rewrite !loop_cons.
    destruct (iteration r cache results w) as [[[[c1 rs1|]|] w1] t1]; try done.
    cbn zeta. destruct (loop pre c1 rs1 w1) as [[r2 w2] t2] eqn:Hl. cbn [fst snd].
    intros [= -> -> <-]. rewrite (IH _ _ _ _ Hl). cbn [fst snd].
    by rewrite app_assoc.
Qed.

End Batch.

Section NotFound.
Context `{Platform}.

Lemma not_found_msg_names_path path response_body :
  occurs_in path (not_found_msg path response_body).
Proof.
  exists ("Unable to retrieve result for " +:+ dquote),
         (dquote +:+ " because it was not found: " +:+ String_trim response_body).
  reflexivity.
Qed.

Lemma iteration_miss secretRequest cache results w error w' :
  cache !! ("v1/" +:+ path secretRequest) = None ->
  client_get w ("v1/" +:+ path secretRequest) = (inr error, w') ->
  iteration secretRequest cache results w =
    match response error with
    | Some r =>
        if Z.eqb (statusCode r) 404 then
          if ignoreNotFound then
            (Ok (Next cache results), w',
             [ EvGet ("v1/" +:+ path secretRequest) (inr error);
               EvError (String "226" (String "156" (String "152" " "))
                        +:+ not_found_msg (path secretRequest) (body r)) ])
          else
            (Throw (Error (not_found_msg (path secretRequest) (body r))), w',
             [ EvGet ("v1/" +:+ path secretRequest) (inr error) ])
        else (Throw (TransportError error), w',
              [ EvGet ("v1/" +:+ path secretRequest) (inr error) ])
    | None => (Throw (TransportError error), w',
               [ EvGet ("v1/" +:+ path secretRequest) (inr error) ])
    end.
Proof.
  intros Hc Hg. rewrite iteration_run, (fetch_miss _ _ _ _ _ Hc Hg).
  destruct error as [[r|]]; cbn [response]; [|done].
  destruct (Z.eqb (statusCode r) 404); [|done].
  by destruct ignoreNotFound.
Qed.

End NotFound.

(** C7. A request is reached after the requests before it, with the cache
    and the results they left, and its path is not cached. When the
    transport fails with status 404 and the ignore-not-found policy is
    off, [getSecrets] throws an error whose message names the path of the
    request, whatever results there were. When the policy is on, the
    request adds no result and changes no cache entry, and the batch goes
    on with the next request. When the transport fails otherwise, with
    another status or with no response, [getSecrets] throws that error. *)
Theorem getSecrets_transport_failure `{Platform}
    (pre post : list SecretRequest) (secretRequest : SecretRequest)
    (w0 w w' : World) (cache : gmap string string)
    (results : list SecretResponse) (t : list Event) (error : HTTPError) :
  loop pre ∅ [] w0 = (Ok (Next cache results), w, t) ->
  cache !! ("v1/" +:+ path secretRequest) = None ->
  client_get w ("v1/" +:+ path secretRequest) = (inr error, w') ->
  let run := getSecrets (pre ++ secretRequest :: post) w0 in
  let failed := t ++ [ EvGet ("v1/" +:+ path secretRequest) (inr error) ] in
  match response error with
  | Some r =>
      if Z.eqb (statusCode r) 404 then
        if ignoreNotFound then
          result_of run = outcome_map returned (loop post cache results w').1.1 /\
          exists line,
            trace_of run = failed ++ EvError line :: (loop post cache results w').2
        else
          result_of run = Throw (Error (not_found_msg (path secretRequest) (body r))) /\
          occurs_in (path secretRequest) (not_found_msg (path secretRequest) (body r)) /\
          trace_of run = failed
      else result_of run = Throw (TransportError error) /\ trace_of run = failed
  | None => result_of run = Throw (TransportError error) /\ trace_of run = failed
  end.
Proof.
  intros Hpre Hc Hg run failed. subst run failed.
  rewrite getSecrets_run, (loop_app _ _ _ _ _ _ _ _ _ Hpre), loop_cons,
    (iteration_miss _ _ _ _ _ _ Hc Hg).
  unfold result_of, trace_of.
  destruct error as [[r|]]; cbn [response]; [|done].
  destruct (Z.eqb (statusCode r) 404); [|done].
  destruct ignoreNotFound; cbn [fst snd outcome_map].
  - split; [done|]. eexists. rewrite <- app_assoc. done.
  - split; [done|]. split; [apply not_found_msg_names_path|done].
Qed.

(** A missing secret with the policy off, after a request that was
    resolved. *)
Lemma getSecrets_transport_failure_witness :
  result_of (@getSecrets Fixture.strict
               [ Fixture.req "secret/data/app" "user";
                 Fixture.req "secret/data/nope" "foo";
                 Fixture.req "secret/data/app" "port" ] 0%nat)
    = Throw (Error (@not_found_msg Fixture.strict "secret/data/nope" "no such secret")) /\
  occurs_in "secret/data/nope"
    (@not_found_msg Fixture.strict "secret/data/nope" "no such secret").
Proof.
  pose proof (@getSecrets_transport_failure Fixture.strict
    [ Fixture.req "secret/data/app" "user" ]
    [ Fixture.req "secret/data/app" "port" ]
    (Fixture.req "secret/data/nope" "foo") 0%nat 1%nat 2%nat
    _ _ _
    {| response := Some {| statusCode := 404; body := "no such secret" |} |}
    eq_refl) as Hw.
  cbv zeta in Hw. specialize (Hw eq_refl eq_refl).
  cbn [response statusCode body] in Hw.
  change (Z.eqb 404 404) with true in Hw.
  change (@ignoreNotFound Fixture.strict) with false in Hw.
  cbv iota in Hw. destruct Hw as (Hr & Ho & _). split; [exact Hr | exact Ho].
Defined.

Section Denial.
Context `{Platform}.

Lemma selects_quiet t :
  forallb is_select t = true ->
  existsb is_denial t = false /\ gets t = [] /\ fetched t = [] /\ checked t = [].
Proof.
  induction t as [|e t IH]; [done|].
  destruct e; done.
Qed.

Lemma fetch_trace secretRequest cache w :
  existsb is_denial (fetch secretRequest cache w).2 = false /\
  selected (fetch secretRequest cache w).2 = [].
Proof.
  destruct (cache !! ("v1/" +:+ path secretRequest)) as [text|] eqn:Hc.
  - by rewrite (fetch_hit _ _ _ _ Hc).
  - destruct (client_get w ("v1/" +:+ path secretRequest)) as [answer w'] eqn:Hg.
    rewrite (fetch_miss _ _ _ _ _ Hc Hg). cbn [snd].
    destruct answer as [text|[[r|]]]; try done.
    by destruct (Z.eqb (statusCode r) 404 && ignoreNotFound).
Qed.

Lemma isAllowed_denial data w :
  existsb is_denial (trace_of (isAllowed data w)) = true <->
  result_of (isAllowed data w) = Ok false.
Proof.
  rewrite isAllowed_run. unfold trace_of, result_of. cbn [fst snd existsb is_denial orb].
  apply gate_denial.
Qed.

(** The second half of an iteration logs a denial exactly when it ends in
    [return], and what it returns then is the empty list. *)
Lemma resolve_denial secretRequest text cached cache results w :
  (existsb is_denial (resolve secretRequest text cached cache results w).2 = true <->
   (resolve secretRequest text cached cache results w).1.1 = Ok (Return [])) /\
  (forall rs, (resolve secretRequest text cached cache results w).1.1 = Ok (Return rs) ->
     rs = []).
Proof.
  rewrite resolve_run.
  destruct (JSON_parse text) as [body|]; [|done].
  destruct (inner_of body) as [inner|]; [|done].
  pose proof (isAllowed_denial inner w) as Hd.
  destruct (result_of (isAllowed inner w)) as [[]|] eqn:Hr; cbn [fst snd].
  - destruct (selects_quiet _ (extract_selects secretRequest body inner cached results w))
      as (Hq & _).
    rewrite existsb_app, Hq, orb_false_r.
    destruct ((extract _ _ _ _ _ w).1.1); cbn [outcome_map]; split; try done.
    all: split; [intros ?%Hd; done | done].
  - split; [tauto|]. by intros rs [= <-].
  - split; [|done]. split; [intros ?%Hd; done | done].
Qed.

Lemma iteration_denial secretRequest cache results w :
  (existsb is_denial (iteration secretRequest cache results w).2 = true <->
   (iteration secretRequest cache results w).1.1 = Ok (Return [])) /\
  (forall rs, (iteration secretRequest cache results w).1.1 = Ok (Return rs) -> rs = []).
Proof.
  rewrite iteration_run.
  destruct (fetch_trace secretRequest cache w) as [Hf _].
  destruct (fetch secretRequest cache w) as [[[[text cached cache'|]|] w1] t1];
    cbn [fst snd] in *.
  - rewrite existsb_app, Hf, orb_false_l. apply resolve_denial.
  - rewrite app_nil_r, Hf. done.
  - rewrite Hf. done.
Qed.

Lemma loop_denial secretRequests cache results w :
  existsb is_denial (loop secretRequests cache results w).2 = true ->
  (loop secretRequests cache results w).1.1 = Ok (Return []).
Proof.
  revert cache results w.
  induction secretRequests as [|r rest IH]; intros cache results w; [done|].
  rewrite loop_cons.
  destruct (iteration_denial r cache results w) as [Hd Hnil].
  destruct (iteration r cache results w) as [[[[c1 rs1|rs1]|e] w1] t1];
    cbn [fst snd] in *.
  - rewrite existsb_app. intros [Ht|Hl]%orb_true_iff.
    + by apply Hd in Ht.
    + by apply IH.
  - intros _. by rewrite (Hnil rs1 eq_refl).
  - intros Ht. by apply Hd in Ht.
Qed.

End Denial.

(** C1. In every batch, once the gate has denied a payload (the log of the
    run has the line with which [isAllowed] announces the denial, for a
    missing attribute or for a pattern that does not match) [getSecrets]
    returns the empty list: it does not throw, and it returns none of the
    results of the requests before. *)
Theorem getSecrets_denial_empties_batch `{Platform}
    (secretRequests : list SecretRequest) (w : World) :
  existsb is_denial (trace_of (getSecrets secretRequests w)) = true ->
  result_of (getSecrets secretRequests w) = Ok [].
Proof.
  rewrite getSecrets_run. unfold trace_of, result_of. cbn [fst snd].
  intros Hd%loop_denial. by rewrite Hd.
Qed.

(** The second secret names another pod; the first and the third could be
    read. *)
Lemma getSecrets_denial_empties_batch_witness :
  result_of (@getSecrets Fixture.strict
               [ Fixture.req "secret/data/app" "user";
                 Fixture.req "secret/data/other" "token";
                 Fixture.req "secret/data/app" "port" ] 0%nat) = Ok [].
Proof.
  apply (@getSecrets_denial_empties_batch Fixture.strict). vm_compute. reflexivity.
Defined.

Section GateTrace.
Context `{Platform}.

Lemma debug_quiet t :
  forallb is_debug t = true -> selected t = [] /\ gets t = [] /\ fetched t = [].
Proof.
  induction t as [|e t IH]; [done|]. destruct e; done.
Qed.

Lemma check_debug key variable actual data w :
  forallb is_debug (check key variable actual data w).2 = true.
Proof.
  rewrite check_cases.
  destruct (js_in key data) as [[]|]; try done.
  destruct (js_index key data) as [[]|]; try done.
  by destruct (minimatch actual s).
Qed.

Lemma gate_debug attrs data w : forallb is_debug (gate attrs data w).2 = true.
Proof.
  induction attrs as [|[[key variable] actual] attrs IH]; [done|].
  rewrite gate_cons.
  pose proof (check_debug key variable actual data w) as Hc.
  pose proof (check_world key variable actual data w) as Hw.
  destruct (check key variable actual data w) as [[[[]|] w1] t1];
    cbn [fst snd] in *; subst; rewrite ?forallb_app, ?Hc; done.
Qed.

Lemma isAllowed_quiet data w :
  selected (trace_of (isAllowed data w)) = [] /\
  gets (trace_of (isAllowed data w)) = [] /\
  fetched (trace_of (isAllowed data w)) = [].
Proof.
  rewrite isAllowed_run. unfold trace_of. cbn [snd selected gets fetched].
  apply debug_quiet, gate_debug.
Qed.

Lemma inner_of_flat props :
  assoc "data" props = None ->
  inner_of (JObj [ ("data", JObj props) ]) = Ok undefined.
Proof. intros Hp. unfold inner_of. simpl. by rewrite Hp. Qed.

Lemma isAllowed_undefined w :
  isAllowed undefined w =
    (Throw (TypeError "Cannot use 'in' operator to search for 'x-k8s-podname'"), w,
     [ EvIsAllowed undefined; EvDebug (DbgCheck "x-k8s-podname") ]).
Proof. reflexivity. Qed.

End GateTrace.

(** C3. A payload of the flatter shape, [{"data": {...}}] with no [data]
    inside, is not processed: [getSecrets] hands [body.data.data], which is
    [undefined], to [isAllowed], and its first test throws a [TypeError],
    whatever attributes the payload carries. The selection itself is
    written for both shapes: on such a payload [selectAndAppendResults]
    prefixes the selector with one [data.] only. *)
Theorem flat_payload_throws `{Platform} (secretRequest : SecretRequest)
    (cache cache' : gmap string string) (results : list SecretResponse)
    (w w1 : World) (t1 : list Event) (text : string) (cached : bool)
    (props : list (string * JSON)) :
  fetch secretRequest cache w = (Ok (Body text cached cache'), w1, t1) ->
  JSON_parse text = Ok (JObj [ ("data", JObj props) ]) ->
  assoc "data" props = None ->
  iteration secretRequest cache results w =
    (Throw (TypeError "Cannot use 'in' operator to search for 'x-k8s-podname'"), w1,
     t1 ++ [ EvIsAllowed undefined; EvDebug (DbgCheck "x-k8s-podname") ]) /\
  forall sel w2,
    selected (trace_of (selectAndAppendResults sel (JObj [ ("data", JObj props) ])
                          cached secretRequest results w2))
      = [ build_selector false sel ].
Proof.
  intros Hf Hp Hflat. split.
  - rewrite iteration_run, Hf. cbn zeta. rewrite resolve_run, Hp.
    rewrite (inner_of_flat _ Hflat). by rewrite isAllowed_undefined.
  - intros sel w2. rewrite selectAndAppendResults_run, (inner_of_flat _ Hflat). done.
Qed.

(** [{"data": {"foo": "bar", ...}}] with every attribute the gate asks
    for. *)
Lemma flat_payload_throws_witness :
  result_of (@getSecrets Fixture.strict [ Fixture.req "secret/data/flat" "foo" ] 0%nat)
    = Throw (TypeError "Cannot use 'in' operator to search for 'x-k8s-podname'").
Proof.
  rewrite (@getSecrets_run Fixture.strict). cbn [loop].
  unfold result_of, bind.
  destruct (@flat_payload_throws Fixture.strict
              (Fixture.req "secret/data/flat" "foo") ∅
              (<["v1/secret/data/flat" := Fixture.stringify Fixture.doc_flat]> ∅)
              [] 0%nat 1%nat
              [ EvGet "v1/secret/data/flat" (inl (Fixture.stringify Fixture.doc_flat)) ]
              (Fixture.stringify Fixture.doc_flat) false
              ([ ("foo", JStr "bar") ] ++ Fixture.open_acl)) as [-> _];
    reflexivity.
Defined.

(** C6. When the body of a request comes from the response cache, no
    transport call is made, and what the iteration does next is run the
    gate on [body.data.data] of that body: the call of [isAllowed] comes
    first in the log, every call of [selectData] comes after the gate has
    finished, and unless the gate allows there is no such call and no
    result is added. When the cached body does not parse, or has no
    [data] to read from, the iteration throws before it extracts
    anything. *)
Theorem cached_payload_is_authorized `{Platform} (secretRequest : SecretRequest)
    (cache : gmap string string) (results : list SecretResponse) (w : World)
    (text : string) :
  cache !! ("v1/" +:+ path secretRequest) = Some text ->
  let run := iteration secretRequest cache results w in
  gets (trace_of run) = [] /\
  match body <~ JSON_parse text ;; inner_of body with
  | Ok inner =>
      exists rest,
        trace_of run = trace_of (isAllowed inner w) ++ rest /\
        hd_error (trace_of (isAllowed inner w)) = Some (EvIsAllowed inner) /\
        selected (trace_of (isAllowed inner w)) = [] /\
        forallb is_select rest = true /\
        (result_of (isAllowed inner w) <> Ok true ->
           rest = [] /\ forall c rs, result_of run <> Ok (Next c rs))
  | Throw e => run = (Throw e, w, [])
  end.
Proof.
  intros Hc run. subst run.
  rewrite iteration_run, (fetch_hit _ _ _ _ Hc). cbn zeta. cbn [app].
  rewrite resolve_run. unfold trace_of, result_of.
  destruct (JSON_parse text) as [body|]; cbn [and_then]; [|done].
  destruct (inner_of body) as [inner|]; [|done].
  destruct (isAllowed_quiet inner w) as (Hs & Hg & _).
  unfold trace_of, result_of in *.
  assert (hd_error (isAllowed inner w).2 = Some (EvIsAllowed inner)) as Hhd
    by (by rewrite isAllowed_run).
  destruct ((isAllowed inner w).1.1) as [[]|] eqn:Hr; cbn [fst snd].
  - destruct (selects_quiet _ (extract_selects secretRequest body inner true results w))
      as (_ & Hq & _).
    rewrite gets_app, Hg, Hq. split; [done|].
    eexists. split; [done|]. split; [done|]. split; [done|].
    split; [apply extract_selects|done].
  - rewrite Hg. split; [done|]. exists []. rewrite app_nil_r. done.
  - rewrite Hg. split; [done|]. exists []. rewrite app_nil_r. done.
Qed.

(** A cached secret: the gate is the first thing the iteration runs. *)
Lemma cached_payload_is_authorized_witness :
  gets (trace_of (@iteration Fixture.strict (Fixture.req "secret/data/app" "user")
                    Fixture.warm [] 0%nat)) = [].
Proof.
  destruct (@cached_payload_is_authorized Fixture.strict
              (Fixture.req "secret/data/app" "user") Fixture.warm [] 0%nat
              (Fixture.stringify Fixture.doc_app)) as [Hgets _];
    [reflexivity | exact Hgets].
Defined.

Section Extraction.
Context `{Platform}.

(** An iteration either extracts nothing, and then leaves the results as
    they were, or it has a body that parsed and that the gate allowed, and
    then what it does is the extraction. *)
Lemma iteration_cases secretRequest cache results w :
  (selected (iteration secretRequest cache results w).2 = [] /\
   forall c rs, (iteration secretRequest cache results w).1.1 = Ok (Next c rs) ->
     rs = results /\ c = cache) \/
  (exists text cached cache' w1 t1 body props,
     fetch secretRequest cache w = (Ok (Body text cached cache'), w1, t1) /\
     JSON_parse text = Ok body /\
     inner_of body = Ok (Some (JObj props)) /\
     result_of (isAllowed (Some (JObj props)) w1) = Ok true /\
     iteration secretRequest cache results w =
       (outcome_map (Next cache')
          (extract secretRequest body (Some (JObj props)) cached results w1).1.1,
        w1,
        t1 ++ trace_of (isAllowed (Some (JObj props)) w1)
           ++ (extract secretRequest body (Some (JObj props)) cached results w1).2)).
Proof.
  rewrite iteration_run.
  destruct (fetch_trace secretRequest cache w) as [_ Hs].
  destruct (fetch secretRequest cache w) as [[[[text cached cache'|]|] w1] t1] eqn:Hf;
    cbn [fst snd] in *.
  - rewrite resolve_run.
    destruct (JSON_parse text) as [body|] eqn:Hp;
      [|left; cbn [fst snd]; by rewrite app_nil_r].
    destruct (inner_of body) as [inner|] eqn:Hi;
      [|left; cbn [fst snd]; by rewrite app_nil_r].
    destruct (isAllowed_quiet inner w1) as (Hq & _).
    destruct (result_of (isAllowed inner w1)) as [[]|] eqn:Hr.
    + right. unfold result_of in Hr. rewrite isAllowed_run in Hr. cbn [fst] in Hr.
      destruct (gate_allows_object _ _ Hr) as [props ->].
      exists text, cached, cache', w1, t1, body, props.
      unfold result_of. rewrite isAllowed_run. cbn [fst]. done.
    + left. cbn [fst snd]. by rewrite selected_app, Hs, Hq.
    + left. cbn [fst snd]. by rewrite selected_app, Hs, Hq.
  - left. rewrite app_nil_r. split; [done|]. by intros c rs [= <- <-].
  - left. done.
Qed.

Lemma length_append s1 s2 :
  String.length (s1 +:+ s2) = (String.length s1 + String.length s2)%nat.
Proof. induction s1 as [|c s1 IH]; [done|]. simpl. by rewrite IH. Qed.

Lemma build_selector_longer nested sel :
  (String.length sel < String.length (build_selector nested sel))%nat.
Proof.
  unfold build_selector.
  destruct (includes_dot sel), nested; cbn [negb]; rewrite ?length_append;
    simpl; lia.
Qed.

Lemma prefix_Forall {A} (P : A -> Prop) (l1 l2 : list A) :
  l1 `prefix_of` l2 -> Forall P l2 -> Forall P l1.
Proof. intros [k ->] Hall. by apply Forall_app in Hall as [? _]. Qed.

End Extraction.

(** C10. For a request that is not a wildcard, the selector handed to
    [selectData] is never the selector of the request: it is that
    selector, wrapped in double quotes when it has no dot, behind the
    prefix [data.data.]. [selectAndAppendResults] puts one [data.] in
    front of the selector, and a second one when [body.data.data] is
    neither [undefined] nor [null], which it is whenever the gate has
    allowed the payload. The selectors derived from the keys of a wildcard
    request go through the same construction. *)
Theorem selector_is_never_verbatim `{Platform} (secretRequest : SecretRequest)
    (cache : gmap string string) (results : list SecretResponse) (w : World) :
  is_wildcard secretRequest = false ->
  let run := iteration secretRequest cache results w in
  let quoted (s : string) := if includes_dot s then s else dquote +:+ s +:+ dquote in
  let built := "data.data." +:+ quoted (selector secretRequest) in
  (selected (trace_of run) = [] \/ selected (trace_of run) = [built]) /\
  (forall c rs, result_of run = Ok (Next c rs) -> rs <> results ->
     selected (trace_of run) = [built]) /\
  built <> selector secretRequest /\
  (forall sel body cached request rs w' inner,
     inner_of body = Ok inner ->
     selected (trace_of (selectAndAppendResults sel body cached request rs w'))
       = [ (if not_nullish inner then "data." else EmptyString) +:+ "data." +:+ quoted sel ]) /\
  (forall wildcardRequest,
     is_wildcard wildcardRequest = true ->
     Forall (fun s => exists key,
               s = "data.data." +:+ quoted (wildcard_selector key))
            (selected (trace_of (iteration wildcardRequest cache results w)))).
Proof.
  intros Hw run quoted built. subst run.
  assert (forall nested s, build_selector nested s =
            (if nested then "data." else EmptyString) +:+ "data." +:+ quoted s) as Hbuild.
  { intros [] s; unfold build_selector, quoted; by destruct (includes_dot s). }
  assert (built = build_selector true (selector secretRequest)) as Hbuilt
    by (by rewrite Hbuild).
  unfold trace_of, result_of.
  split; [|split; [|split; [|split]]].
  - destruct (iteration_cases secretRequest cache results w)
      as [[Hs _]|(text & cached & cache' & w1 & t1 & body & props & Hf & Hp & Hi & Ha & ->)];
      [by left|].
    right. cbn [snd]. destruct (fetch_trace secretRequest cache w) as [_ Hs].
    rewrite Hf in Hs. cbn [snd] in Hs.
    destruct (isAllowed_quiet (Some (JObj props)) w1) as (Hq & _).
    rewrite !selected_app, Hs, Hq. unfold extract. rewrite Hw.
    rewrite selectAndAppendResults_run, Hi. cbn [snd not_nullish]. by rewrite Hbuilt.
  - intros c rs Hr Hne.
    destruct (iteration_cases secretRequest cache results w)
      as [[_ Hsame]|(text & cached & cache' & w1 & t1 & body & props & Hf & Hp & Hi & Ha & He)].
    { by destruct (Hsame c rs Hr). }
    rewrite He. cbn [snd]. destruct (fetch_trace secretRequest cache w) as [_ Hs].
    rewrite Hf in Hs. cbn [snd] in Hs.
    destruct (isAllowed_quiet (Some (JObj props)) w1) as (Hq & _).
    rewrite !selected_app, Hs, Hq. unfold extract. rewrite Hw.
    rewrite selectAndAppendResults_run, Hi. cbn [snd not_nullish]. by rewrite Hbuilt.
  - rewrite Hbuilt. intros Heq.
    pose proof (build_selector_longer true (selector secretRequest)) as Hlen.
    rewrite Heq in Hlen. lia.
  - intros sel body cached request rs w' inner Hi.
    rewrite selectAndAppendResults_run, Hi. cbn [snd selected]. by rewrite Hbuild.
  - intros wildcardRequest Hwild.
    destruct (iteration_cases wildcardRequest cache results w)
      as [[-> _]|(text & cached & cache' & w1 & t1 & body & props & Hf & Hp & Hi & Ha & ->)];
      [done|].
    cbn [snd]. destruct (fetch_trace wildcardRequest cache w) as [_ Hs].
    rewrite Hf in Hs. cbn [snd] in Hs.
    destruct (isAllowed_quiet (Some (JObj props)) w1) as (Hq & _).
    rewrite !selected_app, Hs, Hq. unfold extract. rewrite Hwild. cbn [app].
    destruct (expand_run (forin_keys (Some (JObj props))) wildcardRequest
                (String.eqb (selector wildcardRequest) WILDCARD_UPPERCASE)
                body cached results w1) as (t & -> & _ & Hpre).
    cbn [snd]. eapply prefix_Forall; [exact (Hpre _ Hi)|].
    apply Forall_forall. intros s Hin%list_elem_of_In.
    apply in_map_iff in Hin as (key & <- & _).
    exists key. cbn [not_nullish]. by rewrite Hbuild.
Qed.

(** The selector [user] is evaluated as [data.data."user"]. *)
Lemma selector_is_never_verbatim_witness :
  selected (trace_of (@iteration Fixture.strict (Fixture.req "secret/data/app" "user")
                        ∅ [] 0%nat))
    = [ "data.data." +:+ dquote +:+ "user" +:+ dquote ].
Proof.
  destruct (@selector_is_never_verbatim Fixture.strict
              (Fixture.req "secret/data/app" "user") ∅ [] 0%nat eq_refl)
    as (_ & Hadded & _).
  apply (Hadded (<["v1/secret/data/app" := Fixture.stringify Fixture.doc_app]> ∅)
                [ {| request := Fixture.req "secret/data/app" "user";
                     value := JStr "admin"; cachedResponse := false |} ]);
    [reflexivity | discriminate].
Defined.

Section Wildcard.
Context `{Platform}.

Lemma produced_selector secretRequest upper body cached keys new :
  Forall2 (produced secretRequest upper body cached) keys new ->
  map (fun r => selector (request r)) new = keys.
Proof.
  induction 1 as [|key r keys new (Hr & _) _ IH]; [done|].
  simpl. by rewrite IH, Hr.
Qed.

Lemma eligible_prefixes key :
  eligible key = true <->
  startsWith key "x-k8s-" = false /\ startsWith key "x-github-" = false.
Proof. unfold eligible, reserved. rewrite negb_true_iff. apply orb_false_iff. Qed.

(** An expansion throws only the error of one of its selections. *)
Lemma expand_throws keys secretRequest upper body cached results w inner e :
  inner_of body = Ok inner ->
  (expand keys secretRequest upper body cached results w).1.1 = Throw e ->
  exists key, In key (filter (fun k => eligible k) keys) /\
    selectData body (build_selector (not_nullish inner) (wildcard_selector key))
    = Throw e.
Proof.
  intros Hi. revert results. induction keys as [|key keys IH]; intros results; [done|].
  simpl expand. unfold eligible. rewrite filter_cons.
  destruct (reserved key) eqn:Hr; simpl negb.
  - rewrite decide_False by (by intros []). apply IH.
  - rewrite decide_True by done.
    unfold bind. rewrite selectAndAppendResults_run, Hi. cbn zeta.
    destruct (selectData body _) as [v|e'] eqn:Hs; cbn [outcome_map].
    + destruct (expand keys _ _ _ _ _ w) as [[r w'] t] eqn:He. cbn [fst snd].
      intros ->.
      specialize (IH (results ++ [ {| request := newRequest secretRequest upper key;
                                     value := v; cachedResponse := cached |} ])).
      rewrite He in IH. destruct (IH eq_refl) as (k & Hk & Hsel).
      exists k. split; [by right|done].
    + intros [= <-]. exists key. split; [by left|done].
Qed.

(** The request the code derives is the one the specification
    describes. *)
Lemma newRequest_derived secretRequest key :
  newRequest secretRequest (String.eqb (selector secretRequest) WILDCARD_UPPERCASE) key
  = derived_request secretRequest key.
Proof.
  unfold newRequest, derived_request, normalizeOutputKey.
  by destruct (String.eqb (selector secretRequest) WILDCARD_UPPERCASE).
Qed.

(** The expansion is the selections for the eligible keys, one after the
    other, whether they succeed or not. *)
Lemma expand_select_each keys secretRequest body cached results w :
  expand keys secretRequest (String.eqb (selector secretRequest) WILDCARD_UPPERCASE)
    body cached results w
  = select_each (filter (fun k => eligible k) keys) secretRequest body cached results w.
Proof.
  revert results w. induction keys as [|key keys IH]; intros results w; [done|].
  simpl expand. unfold eligible. rewrite filter_cons.
  destruct (reserved key) eqn:Hr; simpl negb.
  - rewrite decide_False by (by intros []). apply IH.
  - rewrite decide_True by done. cbn [select_each].
    rewrite newRequest_derived. unfold bind.
    destruct (selectAndAppendResults _ _ _ _ _ w) as [[[rs|] w1] t1]; [|done].
    by rewrite IH.
Qed.

Lemma produced_derived secretRequest body cached keys new :
  Forall2 (produced secretRequest
             (String.eqb (selector secretRequest) WILDCARD_UPPERCASE) body cached)
          keys new ->
  map request new = map (derived_request secretRequest) keys.
Proof.
  induction 1 as [|key r keys new (Hr & _) _ IH]; [done|].
  cbn [map]. by rewrite IH, Hr, newRequest_derived.
Qed.

End Wildcard.

(** C8, as stated, does not hold of every payload the gate allows: the
    key goes into the selector as it is, between backticks when it has a
    dot, so a key that itself holds a backtick gives a selector that does
    not select its value. The selection fails, the iteration throws, and
    the eligible key has no result. *)
Lemma wildcard_key_with_backtick_counterexample :
  ~ (exists cache rs,
       result_of (@iteration Fixture.awkward (Fixture.req "secret/data/awkward" "**")
                    ∅ [] 0%nat) = Ok (Next cache rs) /\
       map (fun r => selector (request r)) rs
       = filter (fun k => eligible k)
           (forin_keys (Some (JObj ([ ("a`.b", JStr "1") ] ++ Fixture.open_acl))))).
Proof. intros (cache & rs & Hresult & _). vm_compute in Hresult. discriminate. Qed.

(** C8, amended. Over a payload the gate has allowed, a wildcard request
    selects for each key of the payload that starts neither with [x-k8s-]
    nor with [x-github-], in the order in which the keys are enumerated.
    When each of these selections succeeds, the iteration adds, after the
    results there were, one result for each such key, in that order, and
    no other: a key with one of those prefixes is the selector of no
    result. When a selection fails, the iteration throws the error of
    that selection and adds nothing. It never ends the batch by
    [return]. *)
Theorem wildcard_expands_eligible_keys `{Platform} (secretRequest : SecretRequest)
    (cache cache' : gmap string string) (results : list SecretResponse)
    (w w1 : World) (t1 : list Event) (text : string) (cached : bool)
    (body : JSON) (inner : JsValue) :
  is_wildcard secretRequest = true ->
  fetch secretRequest cache w = (Ok (Body text cached cache'), w1, t1) ->
  JSON_parse text = Ok body ->
  inner_of body = Ok inner ->
  result_of (isAllowed inner w1) = Ok true ->
  let run := iteration secretRequest cache results w in
  let upper := String.eqb (selector secretRequest) WILDCARD_UPPERCASE in
  let keys := filter (fun k => eligible k) (forin_keys inner) in
  (forall key, In key keys <->
     In key (forin_keys inner) /\
     startsWith key "x-k8s-" = false /\ startsWith key "x-github-" = false) /\
  (forall c rs, result_of run = Ok (Next c rs) ->
     exists new, rs = results ++ new /\
       map (fun r => selector (request r)) new = keys /\
       Forall2 (produced secretRequest upper body cached) keys new) /\
  (forall values : string -> JSON,
     (forall key, In key keys ->
        exists built, key_selector body key = Ok built /\
          selectData body built = Ok (values key)) ->
     result_of run =
       Ok (Next cache'
             (results ++
              map (fun key => {| request := newRequest secretRequest upper key;
                                 value := values key; cachedResponse := cached |})
                  keys))) /\
  (forall rs, result_of run <> Ok (Return rs)) /\
  (forall e, result_of run = Throw e ->
     exists key built, In key keys /\ key_selector body key = Ok built /\
       selectData body built = Throw e).
Proof.
  intros Hw Hf Hp Hi Ha run upper keys. subst run upper keys.
  unfold result_of. rewrite iteration_run, Hf. cbn zeta.
  rewrite resolve_run, Hp, Hi, Ha. cbn [fst]. unfold extract. rewrite Hw.
  split; [|split; [|split; [|split]]].
  - intros key. rewrite <- !list_elem_of_In, list_elem_of_filter.
    rewrite Is_true_true, eligible_prefixes. tauto.
  - intros c rs Hr.
    destruct ((expand _ _ _ _ _ _ w1).1.1) as [rs'|] eqn:He; [|done].
    cbn [outcome_map] in Hr. injection Hr as <- <-.
    destruct (expand_results _ _ _ _ _ _ _ _ He) as (new & -> & Hall).
    exists new. split; [done|]. split; [|done].
    by eapply produced_selector.
  - intros values Hsel. by rewrite (expand_succeeds _ _ _ _ _ _ _ values Hsel).
  - intros rs. by destruct ((expand _ _ _ _ _ _ w1).1.1).
  - intros e He.
    destruct ((expand _ _ _ _ _ _ w1).1.1) as [rs'|e'] eqn:Hx; [done|].
    cbn [outcome_map] in He. injection He as ->.
    destruct (expand_throws _ _ _ _ _ _ _ _ _ Hi Hx) as (key & Hin & Hsel).
    exists key, (build_selector (not_nullish inner) (wildcard_selector key)).
    split; [done|]. split; [|done]. unfold key_selector. by rewrite Hi.
Qed.

(** The keys [a], [b], five authorization attributes, [x-k8s-foo] and
    [c.d]: three results. *)
Lemma wildcard_expands_eligible_keys_witness :
  exists new cache',
    result_of (@iteration Fixture.strict (Fixture.req "secret/data/keys" "**")
                 ∅ [] 0%nat) = Ok (Next cache' new) /\
    map (fun r => selector (request r)) new = [ "a"; "b"; "c.d" ].
Proof.
  destruct (@wildcard_expands_eligible_keys Fixture.strict
              (Fixture.req "secret/data/keys" "**") ∅
              (<["v1/secret/data/keys" := Fixture.stringify Fixture.doc_keys]> ∅)
              [] 0%nat 1%nat
              [ EvGet "v1/secret/data/keys" (inl (Fixture.stringify Fixture.doc_keys)) ]
              (Fixture.stringify Fixture.doc_keys) false Fixture.doc_keys
              (Some (JObj ([ ("a", JStr "1"); ("b", JStr "2") ] ++ Fixture.open_acl
                           ++ [ ("x-k8s-foo", JStr "3"); ("c.d", JStr "4") ])))
              eq_refl) as (_ & Hres & _); try reflexivity.
  destruct (Hres (<["v1/secret/data/keys" := Fixture.stringify Fixture.doc_keys]> ∅)
                 [ {| request := {| path := "secret/data/keys"; selector := "a";
                                    outputVarName := "a"; envVarName := "a" |};
                      value := JStr "1"; cachedResponse := false |};
                   {| request := {| path := "secret/data/keys"; selector := "b";
                                    outputVarName := "b"; envVarName := "b" |};
                      value := JStr "2"; cachedResponse := false |};
                   {| request := {| path := "secret/data/keys"; selector := "c.d";
                                    outputVarName := "cd"; envVarName := "cd" |};
                      value := JStr "4"; cachedResponse := false |} ])
    as (new & Hnew & Hkeys & _); [reflexivity|].
  exists new, (<["v1/secret/data/keys" := Fixture.stringify Fixture.doc_keys]> ∅).
  split; [|exact Hkeys]. simpl in Hnew. rewrite <- Hnew. reflexivity.
Defined.

(** C9. For each key [k] of the payload that a wildcard request expands,
    the request derived for [k] has [k] as its selector; when the selector
    of the original request equals its [outputVarName], its two names are
    derived from [k], and otherwise from the original [outputVarName] and
    [envVarName] with [k] appended; [outputVarName] is the normalized
    name, and [envVarName] is the normalized name, upper-cased exactly
    when the selector of the original request is the upper-case wildcard.
    The expansion is, whether it succeeds or not, the selections for these
    derived requests, key by key; when it adds results, their requests are
    the derived requests of the eligible keys of the payload, in order;
    it adds them when each selection succeeds and throws the error of a
    selection otherwise. *)
Theorem wildcard_names `{Platform} (secretRequest : SecretRequest)
    (cache cache' : gmap string string) (results : list SecretResponse)
    (w w1 : World) (t1 : list Event) (text : string) (cached : bool)
    (body : JSON) (inner : JsValue) :
  is_wildcard secretRequest = true ->
  fetch secretRequest cache w = (Ok (Body text cached cache'), w1, t1) ->
  JSON_parse text = Ok body ->
  inner_of body = Ok inner ->
  result_of (isAllowed inner w1) = Ok true ->
  let run := iteration secretRequest cache results w in
  let keys := filter (fun k => eligible k) (forin_keys inner) in
  let same := String.eqb (selector secretRequest) (outputVarName secretRequest) in
  let upper := String.eqb (selector secretRequest) WILDCARD_UPPERCASE in
  let derived k :=
    {| path := path secretRequest;
       selector := k;
       outputVarName :=
         normalizeOutputKey (if same then k else outputVarName secretRequest +:+ k) false;
       envVarName :=
         let name :=
           normalizeOutputKey (if same then k else envVarName secretRequest +:+ k) false in
         if upper then String_toUpperCase name else name |} in
  (forall k, derived k = derived_request secretRequest k) /\
  (forall name, normalizeOutputKey name true
                = String_toUpperCase (normalizeOutputKey name false)) /\
  (forall all_keys rs w',
     expand all_keys secretRequest upper body cached rs w'
     = select_each (filter (fun k => eligible k) all_keys) secretRequest body cached rs w') /\
  (forall c rs, result_of run = Ok (Next c rs) ->
     exists new, rs = results ++ new /\ map request new = map derived keys) /\
  (forall values : string -> JSON,
     (forall key, In key keys ->
        exists built, key_selector body key = Ok built /\
          selectData body built = Ok (values key)) ->
     result_of run =
       Ok (Next cache'
             (results ++
              map (fun key => {| request := derived key; value := values key;
                                 cachedResponse := cached |})
                  keys))) /\
  (forall e, result_of run = Throw e ->
     exists key built, In key keys /\ key_selector body key = Ok built /\
       selectData body built = Throw e).
Proof.
  intros Hw Hf Hp Hi Ha run keys same upper derived.
  assert (forall k, derived k = derived_request secretRequest k) as Hderived by done.
  subst run keys. split; [done|]. split; [done|].
  split; [intros; apply expand_select_each|].
  unfold result_of. rewrite iteration_run, Hf. cbn zeta.
  rewrite resolve_run, Hp, Hi, Ha. cbn [fst]. unfold extract. rewrite Hw.
  fold upper. split; [|split].
  - intros c rs Hr.
    destruct ((expand _ _ _ _ _ _ w1).1.1) as [rs'|] eqn:He; [|done].
    cbn [outcome_map] in Hr. injection Hr as <- <-.
    destruct (expand_results _ _ _ _ _ _ _ _ He) as (new & -> & Hall).
    exists new. split; [done|].
    rewrite (produced_derived _ _ _ _ _ Hall). apply map_ext. by intros k.
  - intros values Hsel. by rewrite (expand_succeeds _ _ _ _ _ _ _ values Hsel).
  - intros e He.
    destruct ((expand _ _ _ _ _ _ w1).1.1) as [rs'|e'] eqn:Hx; [done|].
    cbn [outcome_map] in He. injection He as ->.
    destruct (expand_throws _ _ _ _ _ _ _ _ _ Hi Hx) as (key & Hin & Hsel).
    exists key, (build_selector (not_nullish inner) (wildcard_selector key)).
    split; [done|]. split; [|done]. unfold key_selector. by rewrite Hi.
Qed.

(** The upper-case wildcard with a prefix configured for the names, over
    the keys [a], [b] and [c.d]. *)
Lemma wildcard_names_witness :
  exists new,
    result_of (@iteration Fixture.strict Fixture.prefixed ∅ [] 0%nat)
      = Ok (Next (<["v1/secret/data/keys" := Fixture.stringify Fixture.doc_keys]> ∅) new) /\
    map request new =
      [ {| path := "secret/data/keys"; selector := "a";
           outputVarName := "db_a"; envVarName := "DB_A" |};
        {| path := "secret/data/keys"; selector := "b";
           outputVarName := "db_b"; envVarName := "DB_B" |};
        {| path := "secret/data/keys"; selector := "c.d";
           outputVarName := "db_cd"; envVarName := "DB_CD" |} ].
Proof.
  destruct (@wildcard_names Fixture.strict Fixture.prefixed ∅
              (<["v1/secret/data/keys" := Fixture.stringify Fixture.doc_keys]> ∅)
              [] 0%nat 1%nat
              [ EvGet "v1/secret/data/keys" (inl (Fixture.stringify Fixture.doc_keys)) ]
              (Fixture.stringify Fixture.doc_keys) false Fixture.doc_keys
              (Some (JObj ([ ("a", JStr "1"); ("b", JStr "2") ] ++ Fixture.open_acl
                           ++ [ ("x-k8s-foo", JStr "3"); ("c.d", JStr "4") ])))
              eq_refl) as (_ & _ & _ & Hres & _); try reflexivity.
  destruct (Hres (<["v1/secret/data/keys" := Fixture.stringify Fixture.doc_keys]> ∅)
                 [ {| request := {| path := "secret/data/keys"; selector := "a";
                                    outputVarName := "db_a"; envVarName := "DB_A" |};
                      value := JStr "1"; cachedResponse := false |};
                   {| request := {| path := "secret/data/keys"; selector := "b";
                                    outputVarName := "db_b"; envVarName := "DB_B" |};
                      value := JStr "2"; cachedResponse := false |};
                   {| request := {| path := "secret/data/keys"; selector := "c.d";
                                    outputVarName := "db_cd"; envVarName := "DB_CD" |};
                      value := JStr "4"; cachedResponse := false |} ])
    as (new & Hnew & Hrequests); [reflexivity|].
  exists new. split; [|exact Hrequests].
  cbn [app] in Hnew. rewrite <- Hnew. reflexivity.
Defined.

Section Transport.
Context `{Platform}.

Lemma fetched_app t1 t2 : fetched (t1 ++ t2) = fetched t1 ++ fetched t2.
Proof.
  induction t1 as [|e t1 IH]; [done|].
  destruct e as [? []| | | |]; simpl; by rewrite ?IH.
Qed.

Lemma bodies_le_calls t p : (bodies_of t p <= calls_of t p)%nat.
Proof.
  induction t as [|e t IH]; [done|].
  destruct e as [q []| | | |]; simpl; try done; destruct (string_dec q p); lia.
Qed.

Lemma resolve_transport secretRequest text cached cache results w :
  gets (resolve secretRequest text cached cache results w).2 = [] /\
  fetched (resolve secretRequest text cached cache results w).2 = [] /\
  forall c rs, (resolve secretRequest text cached cache results w).1.1 = Ok (Next c rs) ->
    c = cache.
Proof.
  rewrite resolve_run.
  destruct (JSON_parse text) as [body|]; [|done].
  destruct (inner_of body) as [inner|]; [|done].
  destruct (isAllowed_quiet inner w) as (_ & Hg & Hf).
  destruct (result_of (isAllowed inner w)) as [[]|]; cbn [fst snd]; try done.
  destruct (selects_quiet _ (extract_selects secretRequest body inner cached results w))
    as (_ & Hg' & Hf' & _).
  rewrite gets_app, fetched_app, Hg, Hf, Hg', Hf'. split; [done|]. split; [done|].
  intros c rs. destruct ((extract _ _ _ _ _ w).1.1); cbn [outcome_map]; [|done].
  by intros [= <- _].
Qed.

(** The flag of a body is whether its path was in the cache. *)
Lemma fetch_cached secretRequest cache w text cached cache' w1 t1 :
  fetch secretRequest cache w = (Ok (Body text cached cache'), w1, t1) ->
  cached = bool_decide (is_Some (cache !! ("v1/" +:+ path secretRequest))).
Proof.
  destruct (cache !! ("v1/" +:+ path secretRequest)) as [text'|] eqn:Hc.
  - rewrite (fetch_hit _ _ _ _ Hc). intros [= _ <- _ _ _].
    symmetry. apply bool_decide_eq_true_2. eauto.
  - destruct (client_get w ("v1/" +:+ path secretRequest)) as [answer w'] eqn:Hg.
    rewrite (fetch_miss _ _ _ _ _ Hc Hg).
    destruct answer as [text'|[[r|]]]; try done.
    + intros [= _ <- _ _ _]. symmetry. apply bool_decide_eq_false_2. by intros [? ?].
    + cbn [response]. destruct (Z.eqb (statusCode r) 404); [|intros [=]].
      destruct ignoreNotFound; intros [=].
Qed.

(** The transport calls of an iteration: none on a hit, one on a miss; the
    cache gains the path exactly when the call returned a body, and an
    iteration whose call failed goes on only under the policy. *)
Lemma iteration_transport secretRequest cache results w :
  let p := "v1/" +:+ path secretRequest in
  let x := iteration secretRequest cache results w in
  match cache !! p with
  | Some _ =>
      gets x.2 = [] /\ fetched x.2 = [] /\
      forall c rs, x.1.1 = Ok (Next c rs) -> c = cache
  | None =>
      gets x.2 = [p] /\
      ((exists text, fetched x.2 = [p] /\
          forall c rs, x.1.1 = Ok (Next c rs) -> c = <[p := text]> cache) \/
       (fetched x.2 = [] /\
          forall c rs, x.1.1 = Ok (Next c rs) -> c = cache /\ ignoreNotFound = true))
  end.
Proof.
  intros p x. subst p x. rewrite iteration_run.
  destruct (cache !! ("v1/" +:+ path secretRequest)) as [text|] eqn:Hc.
  - rewrite (fetch_hit _ _ _ _ Hc). cbn zeta. cbn [app fst snd].
    apply resolve_transport.
  - destruct (client_get w ("v1/" +:+ path secretRequest)) as [answer w'] eqn:Hg.
    rewrite (fetch_miss _ _ _ _ _ Hc Hg).
    destruct answer as [text|[[r|]]].
    + destruct (resolve_transport secretRequest text false
                  (<["v1/" +:+ path secretRequest := text]> cache)
                  results w') as (Hg' & Hf' & Hn).
      cbn zeta. cbn [fst snd app gets fetched]. rewrite Hg', Hf'.
      split; [done|]. left. by exists text.
    + cbn [response]. destruct (Z.eqb (statusCode r) 404); cbn [andb];
        [destruct ignoreNotFound|]; cbn [fst snd app gets fetched];
        (split; [done|]); right; (split; [done|]); try done.
      by intros c rs [= <- _].
    + cbn [fst snd app gets fetched]. split; [done|]. by right.
Qed.

(** The results an iteration adds carry the flag of its fetch. *)
Lemma iteration_flags secretRequest cache results w c rs :
  (iteration secretRequest cache results w).1.1 = Ok (Next c rs) ->
  exists new, rs = results ++ new /\
    Forall (fun r => cachedResponse r
                     = bool_decide (is_Some (cache !! ("v1/" +:+ path secretRequest))))
           new.
Proof.
  intros Hr.
  destruct (iteration_cases secretRequest cache results w)
    as [[_ Hsame]|(text & cached & cache' & w1 & t1 & body & props & Hf & Hp & Hi & Ha & He)].
  - destruct (Hsame c rs Hr) as [-> _]. exists []. by rewrite app_nil_r.
  - rewrite He in Hr. cbn [fst] in Hr. rewrite <- (fetch_cached _ _ _ _ _ _ _ _ Hf).
    unfold extract in Hr. destruct (is_wildcard secretRequest).
    + destruct ((expand _ _ _ _ _ _ w1).1.1) as [rs'|] eqn:Hx; [|done].
      cbn [outcome_map] in Hr. injection Hr as <- <-.
      destruct (expand_results _ _ _ _ _ _ _ _ Hx) as (new & -> & Hall).
      exists new. split; [done|].
      clear -Hall. induction Hall as [|k r ks new (_ & Hc & _) _ IH]; by constructor.
    + rewrite selectAndAppendResults_run, Hi in Hr. cbn [fst] in Hr.
      destruct (selectData body _) as [v|]; [|done]. cbn [outcome_map] in Hr.
      injection Hr as <- <-. eexists [_]. split; [done|]. by repeat constructor.
Qed.

(** What holds of the transport calls of the loop from any cache. *)
Lemma loop_transport secretRequests cache results w :
  let t := (loop secretRequests cache results w).2 in
  (forall p, is_Some (cache !! p) -> calls_of t p = 0%nat) /\
  (forall p, (bodies_of t p <= 1)%nat) /\
  (ignoreNotFound = false -> forall p, (calls_of t p <= 1)%nat) /\
  (forall c rs, (loop secretRequests cache results w).1.1 = Ok (Next c rs) ->
     (forall p, is_Some (c !! p) <-> is_Some (cache !! p) \/ (1 <= bodies_of t p)%nat) /\
     (forall r, In r secretRequests ->
        is_Some (cache !! ("v1/" +:+ path r)) \/ (1 <= calls_of t ("v1/" +:+ path r))%nat)).
Proof.
  revert cache results w.
  induction secretRequests as [|r rest IH]; intros cache results w t; subst t.
  { cbn [loop ret snd fst]. split; [done|]. split; [simpl; lia|]. split; [simpl; lia|].
    intros c rs [= <- <-]. split; [|done]. intros p. simpl. split; [tauto|].
    intros [|]; [done|lia]. }
  rewrite loop_cons.
  pose proof (iteration_transport r cache results w) as Ht. cbv zeta in Ht.
  pose proof (bodies_le_calls (iteration r cache results w).2) as Hle.
  destruct (iteration r cache results w) as [[[[c1 rs1|rs1]|e] w1] ti];
    cbn [fst snd] in *.
  - (* the iteration goes on *)
    destruct (IH c1 rs1 w1) as (IHa & IHb & IHd & IHe).
    cbn zeta. cbn [fst snd].
    assert (forall q, calls_of (ti ++ (loop rest c1 rs1 w1).2) q
                      = (calls_of ti q + calls_of (loop rest c1 rs1 w1).2 q)%nat) as Hcalls
      by (intros q; by rewrite gets_app, count_occ_app).
    assert (forall q, bodies_of (ti ++ (loop rest c1 rs1 w1).2) q
                      = (bodies_of ti q + bodies_of (loop rest c1 rs1 w1).2 q)%nat) as Hbodies
      by (intros q; by rewrite fetched_app, count_occ_app).
    destruct (cache !! ("v1/" +:+ path r)) as [text|] eqn:Hc.
    + destruct Ht as (Hg & Hf & Hn). specialize (Hn c1 rs1 eq_refl). subst c1.
      split; [|split; [|split; [|intros c rs Hr; split]]].
      * intros q Hq. rewrite Hcalls, Hg. cbn [count_occ Nat.add]. by apply IHa.
      * intros q. rewrite Hbodies, Hf. cbn [count_occ Nat.add]. apply IHb.
      * intros Hoff q. rewrite Hcalls, Hg. cbn [count_occ Nat.add]. by apply IHd.
      * intros q. rewrite Hbodies, Hf. cbn [count_occ Nat.add]. exact (proj1 (IHe c rs Hr) q).
      * intros r' [<-|Hin]; [left; by rewrite Hc|].
        destruct (proj2 (IHe c rs Hr) r' Hin) as [?|?]; [by left|right].
        rewrite Hcalls. lia.
    + destruct Ht as (Hg & [(text & Hf & Hn)|(Hf & Hn)]).
      * specialize (Hn c1 rs1 eq_refl). subst c1.
        assert (calls_of (loop rest (<["v1/" +:+ path r := text]> cache) rs1 w1).2
                  ("v1/" +:+ path r) = 0%nat) as Hzero
          by (apply IHa; rewrite lookup_insert_eq; eauto).
        split; [|split; [|split; [|intros c rs Hr; split]]].
        -- intros q Hq. rewrite Hcalls, Hg. cbn [count_occ Nat.add].
           destruct (string_dec ("v1/" +:+ path r) q) as [<-|Hne]; [rewrite Hc in Hq; by destruct Hq|].
           apply IHa. by rewrite lookup_insert_ne.
        -- intros q. rewrite Hbodies, Hf. cbn [count_occ Nat.add].
           destruct (string_dec ("v1/" +:+ path r) q) as [<-|Hne]; [|apply IHb].
           pose proof (bodies_le_calls
                         (loop rest (<["v1/" +:+ path r := text]> cache) rs1 w1).2
                         ("v1/" +:+ path r)). lia.
        -- intros Hoff q. rewrite Hcalls, Hg. cbn [count_occ Nat.add].
           destruct (string_dec ("v1/" +:+ path r) q) as [<-|Hne]; [lia|by apply IHd].
        -- intros q. rewrite Hbodies, Hf, (proj1 (IHe c rs Hr) q). cbn [count_occ Nat.add].
           destruct (string_dec ("v1/" +:+ path r) q) as [<-|Hne].
           ++ rewrite lookup_insert_eq. split; [intros _; right; lia|eauto].
           ++ rewrite lookup_insert_ne by done. done.
        -- intros r' [<-|Hin]; [right; rewrite Hcalls, Hg; cbn [count_occ Nat.add];
                                 destruct (string_dec ("v1/" +:+ path r) ("v1/" +:+ path r)); [lia|done]|].
           destruct (proj2 (IHe c rs Hr) r' Hin) as [Hs|?].
           ++ destruct (decide ("v1/" +:+ path r = "v1/" +:+ path r')) as [Heq|Hne].
              ** right. rewrite Hcalls, Hg, <- Heq. cbn [count_occ Nat.add].
                 destruct (string_dec ("v1/" +:+ path r) ("v1/" +:+ path r)); [lia|done].
              ** left. by rewrite lookup_insert_ne in Hs.
           ++ right. rewrite Hcalls. lia.
      * destruct (Hn c1 rs1 eq_refl) as [-> Hon].
        split; [|split; [|split; [|intros c rs Hr; split]]].
        -- intros q Hq. rewrite Hcalls, Hg. cbn [count_occ Nat.add].
           destruct (string_dec ("v1/" +:+ path r) q) as [<-|Hne]; [rewrite Hc in Hq; by destruct Hq|].
           by apply IHa.
        -- intros q. rewrite Hbodies, Hf. cbn [count_occ Nat.add]. apply IHb.
        -- intros Hoff. congruence.
        -- intros q. rewrite Hbodies, Hf. cbn [count_occ Nat.add]. exact (proj1 (IHe c rs Hr) q).
        -- intros r' [<-|Hin]; [right; rewrite Hcalls, Hg; cbn [count_occ Nat.add];
                                 destruct (string_dec ("v1/" +:+ path r) ("v1/" +:+ path r)); [lia|done]|].
           destruct (proj2 (IHe c rs Hr) r' Hin) as [?|?]; [by left|right].
           rewrite Hcalls. lia.
  - (* the iteration returns *)
    destruct (cache !! ("v1/" +:+ path r)) as [text|] eqn:Hc.
    + destruct Ht as (Hg & Hf & _). rewrite Hg, Hf. cbn [count_occ Nat.add].
      split; [done|]. split; [lia|]. split; [intros; lia|done].
    + destruct Ht as (Hg & Hf). rewrite Hg.
      split; [|split; [|split; [|done]]].
      * intros q Hq. cbn [count_occ Nat.add]. destruct (string_dec ("v1/" +:+ path r) q) as [<-|]; [|done].
        rewrite Hc in Hq. by destruct Hq.
      * intros q. specialize (Hle q). rewrite Hg in Hle. cbn [count_occ] in Hle.
        destruct (string_dec ("v1/" +:+ path r) q); lia.
      * intros _ q. cbn [count_occ Nat.add]. destruct (string_dec ("v1/" +:+ path r) q); lia.
  - (* the iteration throws *)
    destruct (cache !! ("v1/" +:+ path r)) as [text|] eqn:Hc.
    + destruct Ht as (Hg & Hf & _). rewrite Hg, Hf. cbn [count_occ Nat.add].
      split; [done|]. split; [lia|]. split; [intros; lia|done].
    + destruct Ht as (Hg & Hf). rewrite Hg.
      split; [|split; [|split; [|done]]].
      * intros q Hq. cbn [count_occ Nat.add]. destruct (string_dec ("v1/" +:+ path r) q) as [<-|]; [|done].
        rewrite Hc in Hq. by destruct Hq.
      * intros q. specialize (Hle q). rewrite Hg in Hle. cbn [count_occ] in Hle.
        destruct (string_dec ("v1/" +:+ path r) q); lia.
      * intros _ q. cbn [count_occ Nat.add]. destruct (string_dec ("v1/" +:+ path r) q); lia.
Qed.

End Transport.

(** C5, as stated, does not hold: a path that the transport answers with
    404 is not cached, so under the ignore-not-found policy each request
    for it calls the transport. Two requests for one missing secret make
    two calls. *)
Lemma one_get_per_repeated_path_counterexample :
  ~ (forall p,
       (2 <= count_occ string_dec (map path Fixture.missing_twice) p)%nat ->
       count_occ string_dec
         (gets (trace_of (@getSecrets Fixture.lenient Fixture.missing_twice 0%nat)))
         ("v1/" +:+ p) = 1%nat).
Proof.
  intros Hclaim.
  specialize (Hclaim "secret/data/nope").
  assert (count_occ string_dec
            (gets (trace_of (@getSecrets Fixture.lenient Fixture.missing_twice 0%nat)))
            ("v1/" +:+ "secret/data/nope") = 2%nat) as Htwo by (vm_compute; reflexivity).
  rewrite Htwo in Hclaim.
  assert (2 <= count_occ string_dec (map path Fixture.missing_twice) "secret/data/nope")%nat
    as Hrepeated by (vm_compute; lia).
  specialize (Hclaim Hrepeated). discriminate.
Qed.

(** C5, amended. In every batch the transport returns at most one body
    for a path. When a request is reached, its path is in the response
    cache exactly when a body was fetched for it before; then the request
    makes no transport call and each result it adds carries
    [cachedResponse = true]; otherwise it makes one call and each result
    it adds carries [cachedResponse = false]. The results of a wildcard
    request are among these, so they carry the flag of their fetch. With
    the ignore-not-found policy off no path is requested twice, and in a
    batch that is processed to its end every requested path is requested:
    exactly once with the policy off. *)
Theorem one_body_per_path `{Platform} (secretRequests : list SecretRequest) (w : World) :
  let run := getSecrets secretRequests w in
  let calls p := count_occ string_dec (gets (trace_of run)) p in
  let bodies p := count_occ string_dec (fetched (trace_of run)) p in
  (forall p, (bodies p <= 1)%nat) /\
  (ignoreNotFound = false -> forall p, (calls p <= 1)%nat) /\
  (forall c rs, result_of (loop secretRequests ∅ [] w) = Ok (Next c rs) ->
     forall r, In r secretRequests ->
       (1 <= calls ("v1/" +:+ path r))%nat /\
       (ignoreNotFound = false -> calls ("v1/" +:+ path r) = 1%nat)) /\
  (forall pre r post cache results w1 t1,
     secretRequests = pre ++ r :: post ->
     loop pre ∅ [] w = (Ok (Next cache results), w1, t1) ->
     let step := iteration r cache results w1 in
     let hit := bool_decide (is_Some (cache !! ("v1/" +:+ path r))) in
     (hit = true <-> In ("v1/" +:+ path r) (fetched t1)) /\
     gets (trace_of step) = (if hit then [] else [ "v1/" +:+ path r ]) /\
     forall c rs, result_of step = Ok (Next c rs) ->
       exists new, rs = results ++ new /\ Forall (fun x => cachedResponse x = hit) new).
Proof.
  intros run calls bodies. subst run calls bodies.
  rewrite getSecrets_run. unfold trace_of, result_of. cbn [fst snd].
  destruct (loop_transport secretRequests ∅ [] w) as (_ & Hb & Hd & He).
  split; [exact Hb|]. split; [exact Hd|]. split.
  - intros c rs Hr r Hin.
    destruct (proj2 (He c rs Hr) r Hin) as [[? Hs]|Hone];
      [by rewrite lookup_empty in Hs|].
    split; [done|]. intros Hoff. specialize (Hd Hoff ("v1/" +:+ path r)). lia.
  - intros pre r post cache results w1 t1 _ Hpre.
    destruct (loop_transport pre ∅ [] w) as (_ & _ & _ & Hpre').
    rewrite Hpre in Hpre'. cbn [fst snd] in Hpre'.
    destruct (Hpre' cache results eq_refl) as [Hcache _].
    split; [|split].
    + rewrite bool_decide_eq_true, Hcache, (count_occ_In string_dec). split.
      * intros [[? Hs]|?]; [by rewrite lookup_empty in Hs|lia].
      * intros ?. right. lia.
    + pose proof (iteration_transport r cache results w1) as Ht. cbv zeta in Ht.
      destruct (cache !! ("v1/" +:+ path r)) as [text|] eqn:Hc.
      * rewrite bool_decide_eq_true_2 by eauto. by destruct Ht as (-> & _).
      * rewrite bool_decide_eq_false_2 by (by intros [? ?]). by destruct Ht as (-> & _).
    + intros c rs Hr. by apply iteration_flags in Hr.
Qed.

(** A secret requested twice, with a wildcard request in between: the
    second request for it finds its body in the cache. *)
Lemma one_body_per_path_witness :
  exists cache results w1 t1,
    @loop Fixture.strict [ Fixture.req "secret/data/app" "user";
                           Fixture.req "secret/data/keys" "**" ] ∅ [] 0%nat
      = (Ok (Next cache results), w1, t1) /\
    gets (trace_of (@iteration Fixture.strict (Fixture.req "secret/data/app" "port")
                      cache results w1)) = [].
Proof.
  eexists _, _, _, _. split; [vm_compute; reflexivity|].
  destruct (@one_body_per_path Fixture.strict
              [ Fixture.req "secret/data/app" "user";
                Fixture.req "secret/data/keys" "**";
                Fixture.req "secret/data/app" "port" ] 0%nat) as (_ & _ & _ & Hreached).
  edestruct (Hreached [ Fixture.req "secret/data/app" "user";
                        Fixture.req "secret/data/keys" "**" ]
                      (Fixture.req "secret/data/app" "port") [])
    as (_ & Hgets & _); [reflexivity | vm_compute; reflexivity |].
  exact Hgets.
Defined.

(** ** Beyond the claims: the cache and the transport over a batch *)

Section CacheFacts.
Context `{Platform}.

Lemma received_app t1 t2 : received (t1 ++ t2) = received t1 ++ received t2.
Proof.
  induction t1 as [|e t1 IH]; [done|].
  destruct e as [? []| | | |]; simpl; by rewrite ?IH.
Qed.

Lemma gated_app t1 t2 : gated (t1 ++ t2) = gated t1 ++ gated t2.
Proof.
  induction t1 as [|e t1 IH]; [done|].
  destruct e; simpl; by rewrite ?IH.
Qed.

Lemma selects_receive_nothing t :
  forallb is_select t = true -> received t = [] /\ gated t = [].
Proof. induction t as [|e t IH]; [done|]. destruct e; done. Qed.

Lemma debug_receive_nothing t :
  forallb is_debug t = true -> received t = [] /\ gated t = [].
Proof. induction t as [|e t IH]; [done|]. destruct e; done. Qed.

Lemma resolve_received secretRequest text cached cache results w :
  received (resolve secretRequest text cached cache results w).2 = [].
Proof.
  rewrite resolve_run.
  destruct (JSON_parse text) as [body|]; [|done].
  destruct (inner_of body) as [inner|]; [|done].
  assert (received (trace_of (isAllowed inner w)) = []) as Hr.
  { rewrite isAllowed_run. unfold trace_of. cbn [snd received].
    apply debug_receive_nothing, gate_debug. }
  destruct (result_of (isAllowed inner w)) as [[]|]; cbn [fst snd]; try done.
  rewrite received_app, Hr.
  by destruct (selects_receive_nothing _
                 (extract_selects secretRequest body inner cached results w)) as [-> _].
Qed.

(** What an iteration receives and how it leaves the cache. *)
Lemma iteration_received secretRequest cache results w :
  let p := "v1/" +:+ path secretRequest in
  let x := iteration secretRequest cache results w in
  (received x.2 = [] /\ forall c rs, x.1.1 = Ok (Next c rs) -> c = cache) \/
  (exists text, cache !! p = None /\ received x.2 = [(p, text)] /\
     forall c rs, x.1.1 = Ok (Next c rs) -> c = <[p := text]> cache).
Proof.
  intros p x. subst p x. rewrite iteration_run.
  destruct (cache !! ("v1/" +:+ path secretRequest)) as [text|] eqn:Hc.
  - left. rewrite (fetch_hit _ _ _ _ Hc). cbn zeta. cbn [app fst snd].
    split; [apply resolve_received|].
    apply (resolve_transport secretRequest text true cache results w).
  - destruct (client_get w ("v1/" +:+ path secretRequest)) as [answer w'] eqn:Hg.
    rewrite (fetch_miss _ _ _ _ _ Hc Hg).
    destruct answer as [text|[[r|]]].
    + right. exists text. split; [done|]. cbn zeta. cbn [fst snd app received].
      rewrite resolve_received. split; [done|].
      apply (resolve_transport secretRequest text false _ results w').
    + left. cbn [response]. destruct (Z.eqb (statusCode r) 404); cbn [andb];
        [destruct ignoreNotFound|]; cbn [fst snd app received]; split; try done.
      by intros c rs [= <- _].
    + left. cbn [fst snd app received]. done.
Qed.

(** The cache of a loop that goes on: what it had, and what the transport
    returned since, under the path it was requested by. *)
Lemma loop_cache secretRequests cache results w c rs :
  (loop secretRequests cache results w).1.1 = Ok (Next c rs) ->
  cache ⊆ c /\
  forall p text, c !! p = Some text <->
    cache !! p = Some text \/ In (p, text) (received (loop secretRequests cache results w).2).
Proof.
  revert cache results w.
  induction secretRequests as [|r rest IH]; intros cache results w.
  { cbn [loop ret fst snd]. intros [= <- <-]. split; [done|]. intros p text.
    simpl. tauto. }
  rewrite loop_cons.
  pose proof (iteration_received r cache results w) as Hi. cbv zeta in Hi.
  destruct (iteration r cache results w) as [[[[c1 rs1|rs1]|e] w1] ti];
    cbn [fst snd] in *; try done.
  cbn zeta. cbn [fst snd]. intros Hr.
  destruct (IH c1 rs1 w1 Hr) as [Hsub Hiff].
  destruct Hi as [[Hrec Hn]|(text & Hc & Hrec & Hn)].
  - specialize (Hn c1 rs1 eq_refl). subst c1. split; [done|].
    intros p text. rewrite received_app, Hrec. cbn [app]. apply Hiff.
  - specialize (Hn c1 rs1 eq_refl). subst c1. split.
    + etrans; [|exact Hsub]. by apply insert_subseteq.
    + intros p text'. rewrite received_app, Hrec, Hiff. cbn [app In].
      destruct (decide ("v1/" +:+ path r = p)) as [<-|Hne].
      * rewrite lookup_insert_eq, Hc. split.
        -- intros [[= <-]|?]; [right; by left|right; by right].
        -- intros [?|[[= <-]|?]]; [done|by left|by right].
      * rewrite lookup_insert_ne by done. split.
        -- intros [?|?]; [by left|right; by right].
        -- intros [?|[[= ? _]|?]]; [by left|done|by right].
Qed.

End CacheFacts.

(** X1. When a request is reached after the requests before it, the
    response cache holds, for each path, exactly the body the transport
    returned for that path earlier in the run. A request whose path has
    been answered is then resolved with that body and no transport call,
    whatever the transport would answer now. *)
Theorem cached_body_is_first_answer `{Platform}
    (pre : list SecretRequest) (secretRequest : SecretRequest)
    (w w1 : World) (cache : gmap string string)
    (results : list SecretResponse) (t1 : list Event) :
  loop pre ∅ [] w = (Ok (Next cache results), w1, t1) ->
  (forall p text, cache !! p = Some text <-> In (p, text) (received t1)) /\
  (forall text, In ("v1/" +:+ path secretRequest, text) (received t1) ->
     fetch secretRequest cache w1 = (Ok (Body text true cache), w1, [])).
Proof.
  intros Hpre.
  destruct (loop_cache pre ∅ [] w cache results) as [_ Hiff]; [by rewrite Hpre|].
  rewrite Hpre in Hiff. cbn [snd] in Hiff.
  assert (forall p text, cache !! p = Some text <-> In (p, text) (received t1)) as Hc.
  { intros p text. rewrite Hiff, lookup_empty. split; [by intros [|]|by right]. }
  split; [exact Hc|]. intros text Hin. apply fetch_hit. by apply Hc.
Qed.

(** After [secret/data/app] has been fetched, a request for it is served
    the body that was fetched. *)
Lemma cached_body_is_first_answer_witness :
  @fetch Fixture.strict (Fixture.req "secret/data/app" "port") Fixture.warm 1%nat
    = (Ok (Body (Fixture.stringify Fixture.doc_app) true Fixture.warm), 1%nat, []).
Proof.
  destruct (@cached_body_is_first_answer Fixture.strict
              [ Fixture.req "secret/data/app" "user" ]
              (Fixture.req "secret/data/app" "port") 0%nat 1%nat Fixture.warm
              [ {| request := Fixture.req "secret/data/app" "user";
                   value := JStr "admin"; cachedResponse := false |} ]
              (trace_of (@loop Fixture.strict [ Fixture.req "secret/data/app" "user" ]
                           ∅ [] 0%nat))) as [_ Hserved]; [reflexivity|].
  apply Hserved. vm_compute. left. reflexivity.
Defined.

Section Paths.
Context `{Platform}.

Lemma loop_gets_sublist secretRequests cache results w :
  gets (loop secretRequests cache results w).2
    `sublist_of` map (fun r => "v1/" +:+ path r) secretRequests.
Proof.
  revert cache results w.
  induction secretRequests as [|r rest IH]; intros cache results w; [done|].
  rewrite loop_cons.
  pose proof (iteration_transport r cache results w) as Ht. cbv zeta in Ht.
  assert (gets (iteration r cache results w).2 = [] \/
          gets (iteration r cache results w).2 = [ "v1/" +:+ path r ]) as Hg.
  { destruct (cache !! ("v1/" +:+ path r)); [left|right]; by destruct Ht as [-> _]. }
  destruct (iteration r cache results w) as [[[[c1 rs1|rs1]|e] w1] ti];
    cbn [fst snd map] in *.
  - rewrite gets_app. destruct Hg as [->| ->]; cbn [app].
    + apply sublist_cons, IH.
    + apply sublist_skip, IH.
  - destruct Hg as [->| ->]; [apply sublist_nil_l|apply sublist_skip, sublist_nil_l].
  - destruct Hg as [->| ->]; [apply sublist_nil_l|apply sublist_skip, sublist_nil_l].
Qed.

End Paths.

(** X2. The transport is only ever asked for [v1/] followed by the path of
    a request of the batch, with at most one call for each request and in
    the order of the requests. *)
Theorem transport_calls_follow_requests `{Platform}
    (secretRequests : list SecretRequest) (w : World) :
  gets (trace_of (getSecrets secretRequests w))
    `sublist_of` map (fun r => "v1/" +:+ path r) secretRequests.
Proof.
  rewrite getSecrets_run. unfold trace_of. cbn [snd]. apply loop_gets_sublist.
Qed.

(** ** Beyond the claims: the gate over a batch *)

Section GateOverBatch.
Context `{Platform}.

Lemma select_event_selected d s t : In (EvSelectData d s) t -> In s (selected t).
Proof.
  induction t as [|e t IH]; [done|]. intros [->|Hin]; [by left|].
  destruct e; simpl; auto.
Qed.

Lemma expand_events keys secretRequest upper body cached results w :
  Forall (fun e => exists s, e = EvSelectData body s)
         (expand keys secretRequest upper body cached results w).2.
Proof.
  revert results. induction keys as [|key keys IH]; intros results; [by constructor|].
  simpl expand. destruct (reserved key); [apply IH|].
  unfold bind. rewrite selectAndAppendResults_run.
  destruct (inner_of body) as [inner|]; [|by constructor].
  cbn zeta. destruct (selectData body _) as [v|]; cbn [outcome_map].
  - specialize (IH (results ++ [ {| request := newRequest secretRequest upper key;
                                   value := v; cachedResponse := cached |} ])).
    destruct (expand keys _ _ _ _ _ w) as [[??]?]. cbn [snd] in *.
    constructor; [eauto|done].
  - repeat constructor. eauto.
Qed.

Lemma extract_events secretRequest body inner cached results w :
  Forall (fun e => exists s, e = EvSelectData body s)
         (extract secretRequest body inner cached results w).2.
Proof.
  unfold extract. destruct (is_wildcard secretRequest); [apply expand_events|].
  rewrite selectAndAppendResults_run. destruct (inner_of body); cbn [snd];
    repeat constructor. eauto.
Qed.

Lemma iteration_selects_allowed secretRequest cache results w d s :
  In (EvSelectData d s) (iteration secretRequest cache results w).2 ->
  exists inner, inner_of d = Ok inner /\ forallb (passes inner) attributes = true.
Proof.
  intros Hin.
  destruct (iteration_cases secretRequest cache results w)
    as [[Hs _]|(text & cached & cache' & w1 & t1 & body & props & Hf & Hp & Hi & Ha & He)].
  - apply select_event_selected in Hin. by rewrite Hs in Hin.
  - rewrite He in Hin. cbn [snd] in Hin.
    destruct (fetch_trace secretRequest cache w) as [_ Hs]. rewrite Hf in Hs.
    cbn [snd] in Hs.
    destruct (isAllowed_quiet (Some (JObj props)) w1) as (Hq & _).
    apply in_app_iff in Hin as [Hin|Hin];
      [apply select_event_selected in Hin; by rewrite Hs in Hin|].
    apply in_app_iff in Hin as [Hin|Hin];
      [apply select_event_selected in Hin; by rewrite Hq in Hin|].
    pose proof (extract_events secretRequest body (Some (JObj props)) cached results w1)
      as Hall.
    rewrite Forall_forall in Hall. apply list_elem_of_In, Hall in Hin as [s' [= -> _]].
    exists (Some (JObj props)). split; [done|].
    unfold result_of in Ha. rewrite isAllowed_run in Ha. by apply gate_allows in Ha.
Qed.

Lemma loop_selects_allowed secretRequests cache results w d s :
  In (EvSelectData d s) (loop secretRequests cache results w).2 ->
  exists inner, inner_of d = Ok inner /\ forallb (passes inner) attributes = true.
Proof.
  revert cache results w.
  induction secretRequests as [|r rest IH]; intros cache results w; [done|].
  rewrite loop_cons.
  pose proof (iteration_selects_allowed r cache results w d s) as Hi.
  destruct (iteration r cache results w) as [[[[c1 rs1|rs1]|e] w1] ti];
    cbn [fst snd] in *; try done.
  intros [Hin|Hin]%in_app_iff; [by apply Hi|by apply IH in Hin].
Qed.

Lemma fetch_gated secretRequest cache w : gated (fetch secretRequest cache w).2 = [].
Proof.
  destruct (cache !! ("v1/" +:+ path secretRequest)) as [text|] eqn:Hc.
  - by rewrite (fetch_hit _ _ _ _ Hc).
  - destruct (client_get w ("v1/" +:+ path secretRequest)) as [answer w'] eqn:Hg.
    rewrite (fetch_miss _ _ _ _ _ Hc Hg). cbn [snd].
    destruct answer as [text|[[r|]]]; try done.
    by destruct (Z.eqb (statusCode r) 404 && ignoreNotFound).
Qed.

Lemma isAllowed_gated data w : gated (trace_of (isAllowed data w)) = [data].
Proof.
  rewrite isAllowed_run. unfold trace_of. cbn [snd gated].
  by destruct (debug_receive_nothing _ (gate_debug attributes data w)) as [_ ->].
Qed.

(** The gate runs at most once in an iteration, and once in an iteration
    that goes on without having skipped its request. *)
Lemma iteration_gated secretRequest cache results w :
  (length (gated (iteration secretRequest cache results w).2) <= 1)%nat /\
  forall c rs, (iteration secretRequest cache results w).1.1 = Ok (Next c rs) ->
    ignoreNotFound = false ->
    length (gated (iteration secretRequest cache results w).2) = 1%nat.
Proof.
  rewrite iteration_run.
  pose proof (fetch_gated secretRequest cache w) as Hf.
  destruct (cache !! ("v1/" +:+ path secretRequest)) as [text0|] eqn:Hc.
  - rewrite (fetch_hit _ _ _ _ Hc) in *. cbn zeta. cbn [app fst snd].
    rewrite resolve_run.
    destruct (JSON_parse text0) as [body|]; [|split; [simpl; lia|done]].
    destruct (inner_of body) as [inner|]; [|split; [simpl; lia|done]].
    pose proof (isAllowed_gated inner w) as Hg.
    destruct (result_of (isAllowed inner w)) as [[]|]; cbn [fst snd];
      rewrite ?gated_app, ?Hg;
      try destruct (selects_receive_nothing _
            (extract_selects secretRequest body inner true results w)) as [_ ->];
      split; simpl; (lia || done).
  - destruct (client_get w ("v1/" +:+ path secretRequest)) as [answer w'] eqn:Hget.
    rewrite (fetch_miss _ _ _ _ _ Hc Hget) in *. cbn [snd] in Hf.
    destruct answer as [text|[[r|]]].
    + cbn zeta. cbn [fst snd app gated]. rewrite resolve_run.
      destruct (JSON_parse text) as [body|]; [|split; [simpl; lia|done]].
      destruct (inner_of body) as [inner|]; [|split; [simpl; lia|done]].
      pose proof (isAllowed_gated inner w') as Hg.
      destruct (result_of (isAllowed inner w')) as [[]|]; cbn [fst snd];
        rewrite ?gated_app, ?Hg;
        try destruct (selects_receive_nothing _
              (extract_selects secretRequest body inner false results w')) as [_ ->];
        split; simpl; (lia || done).
    + cbn [response]. destruct (Z.eqb (statusCode r) 404); cbn [andb];
        [destruct ignoreNotFound eqn:Hon|]; cbn [fst snd app gated];
        split; simpl; (lia || done).
    + cbn [fst snd app gated]. split; [simpl; lia|done].
Qed.

Lemma loop_gated secretRequests cache results w :
  (length (gated (loop secretRequests cache results w).2) <= length secretRequests)%nat /\
  forall c rs, (loop secretRequests cache results w).1.1 = Ok (Next c rs) ->
    ignoreNotFound = false ->
    length (gated (loop secretRequests cache results w).2) = length secretRequests.
Proof.
  revert cache results w.
  induction secretRequests as [|r rest IH]; intros cache results w; [done|].
  rewrite loop_cons.
  destruct (iteration_gated r cache results w) as [Hle Heq].
  destruct (iteration r cache results w) as [[[[c1 rs1|rs1]|e] w1] ti];
    cbn [fst snd length] in *.
  - destruct (IH c1 rs1 w1) as [IHle IHeq]. cbn zeta. cbn [fst snd].
    rewrite gated_app, length_app. split; [lia|].
    intros c rs Hr Hoff. rewrite (Heq c1 rs1 eq_refl Hoff), (IHeq c rs Hr Hoff). done.
  - split; [lia|done].
  - split; [lia|done].
Qed.

End GateOverBatch.

(** X3. Whatever the batch, [selectData] is only ever called on a body
    whose [data.data] carries the five attributes with patterns that match
    the context: no value is extracted from a payload the gate would not
    allow. *)
Theorem selections_are_authorized `{Platform}
    (secretRequests : list SecretRequest) (w : World) (body : JSON) (sel : string) :
  In (EvSelectData body sel) (trace_of (getSecrets secretRequests w)) ->
  exists inner, inner_of body = Ok inner /\ forallb (passes inner) attributes = true.
Proof.
  rewrite getSecrets_run. unfold trace_of. cbn [snd]. apply loop_selects_allowed.
Qed.

(** The selection of [user] in [secret/data/app]. *)
Lemma selections_are_authorized_witness :
  exists inner,
    inner_of Fixture.doc_app = Ok inner /\
    forallb (@passes Fixture.strict inner) (@attributes Fixture.strict) = true.
Proof.
  apply (@selections_are_authorized Fixture.strict
           [ Fixture.req "secret/data/app" "user" ] 0%nat Fixture.doc_app
           ("data.data." +:+ dquote +:+ "user" +:+ dquote)).
  vm_compute. do 18 right. left. reflexivity.
Defined.

(** X4. The gate runs at most once for each request of the batch, and in a
    batch that is processed to its end with the ignore-not-found policy
    off it runs exactly once for each request, also for those whose body
    came from the cache. *)
Theorem gate_runs_once_per_request `{Platform}
    (secretRequests : list SecretRequest) (w : World) :
  (length (gated (trace_of (getSecrets secretRequests w))) <= length secretRequests)%nat /\
  forall c rs, result_of (loop secretRequests ∅ [] w) = Ok (Next c rs) ->
    ignoreNotFound = false ->
    length (gated (trace_of (getSecrets secretRequests w))) = length secretRequests.
Proof.
  rewrite getSecrets_run. unfold trace_of, result_of. cbn [snd]. apply loop_gated.
Qed.

(** One transport call and two runs of the gate for two requests of one
    path. *)
Lemma gate_runs_once_per_request_witness :
  length (gated (trace_of (@getSecrets Fixture.strict
                             [ Fixture.req "secret/data/app" "user";
                               Fixture.req "secret/data/app" "port" ] 0%nat))) = 2%nat.
Proof.
  destruct (@gate_runs_once_per_request Fixture.strict
              [ Fixture.req "secret/data/app" "user";
                Fixture.req "secret/data/app" "port" ] 0%nat) as [_ Hall].
  eapply Hall; [vm_compute; reflexivity | reflexivity].
Defined.

Section DenialIsLast.
Context `{Platform}.

Lemma ends_in_denial_after t1 t2 :
  existsb is_denial t1 = false -> ends_in_denial t2 -> ends_in_denial (t1 ++ t2).
Proof.
  intros Hq (before & e & -> & He & Hb).
  exists (t1 ++ before), e. rewrite app_assoc. split; [done|]. split; [done|].
  by rewrite existsb_app, Hq, Hb.
Qed.

Lemma check_ends_in_denial key variable actual data w :
  (check key variable actual data w).1.1 = Ok false ->
  ends_in_denial (check key variable actual data w).2.
Proof.
  rewrite check_cases.
  destruct (js_in key data) as [[]|]; try done.
  - destruct (js_index key data) as [[]|]; try done.
    destruct (minimatch actual s); [done|]. intros _.
    by exists [ EvDebug (DbgCheck key); EvDebug (DbgValue key (Some (JStr s))) ],
              (EvDebug (DbgDenied variable actual)).
  - intros _. by exists [ EvDebug (DbgCheck key) ], (EvDebug (DbgMissing key)).
Qed.

Lemma gate_ends_in_denial attrs data w :
  (gate attrs data w).1.1 = Ok false -> ends_in_denial (gate attrs data w).2.
Proof.
  induction attrs as [|[[key variable] actual] attrs IH]; [done|].
  rewrite gate_cons.
  pose proof (check_denial key variable actual data w) as Hd.
  pose proof (check_ends_in_denial key variable actual data w) as He.
  pose proof (check_world key variable actual data w) as Hw.
  destruct (check key variable actual data w) as [[[[]|] w1] t1];
    cbn [fst snd] in *; subst; try done.
  - intros Hg. apply ends_in_denial_after; [|by apply IH].
    destruct (existsb is_denial t1); [|done]. discriminate (proj1 Hd eq_refl).
  - intros _. rewrite app_nil_r. by apply He.
Qed.

Lemma resolve_ends_in_denial secretRequest text cached cache results w rs :
  (resolve secretRequest text cached cache results w).1.1 = Ok (Return rs) ->
  ends_in_denial (resolve secretRequest text cached cache results w).2.
Proof.
  rewrite resolve_run.
  destruct (JSON_parse text) as [body|]; [|done].
  destruct (inner_of body) as [inner|]; [|done].
  destruct (result_of (isAllowed inner w)) as [[]|] eqn:Hr; cbn [fst snd]; try done.
  - by destruct ((extract _ _ _ _ _ w).1.1).
  - intros _. unfold result_of in Hr. rewrite isAllowed_run in *.
    unfold trace_of. cbn [fst snd] in *.
    apply (ends_in_denial_after [ EvIsAllowed inner ]); [done|].
    by apply gate_ends_in_denial.
Qed.

Lemma iteration_ends_in_denial secretRequest cache results w rs :
  (iteration secretRequest cache results w).1.1 = Ok (Return rs) ->
  ends_in_denial (iteration secretRequest cache results w).2.
Proof.
  rewrite iteration_run.
  destruct (fetch_trace secretRequest cache w) as [Hf _].
  destruct (fetch secretRequest cache w) as [[[[text cached cache'|]|] w1] t1];
    cbn [fst snd] in *; try done.
  intros Hr. apply ends_in_denial_after; [done|].
  by eapply resolve_ends_in_denial.
Qed.

Lemma loop_ends_in_denial secretRequests cache results w rs :
  (loop secretRequests cache results w).1.1 = Ok (Return rs) ->
  ends_in_denial (loop secretRequests cache results w).2.
Proof.
  revert cache results w.
  induction secretRequests as [|r rest IH]; intros cache results w; [done|].
  rewrite loop_cons.
  destruct (iteration_denial r cache results w) as [Hd _].
  pose proof (iteration_ends_in_denial r cache results w) as He.
  destruct (iteration r cache results w) as [[[[c1 rs1|rs1]|e] w1] ti];
    cbn [fst snd] in *; try done.
  - intros Hr. apply ends_in_denial_after; [|by apply IH].
    destruct (existsb is_denial ti); [|done]. discriminate (proj1 Hd eq_refl).
  - intros _. by eapply He.
Qed.

End DenialIsLast.

(** X5. A denial ends the run at once: when the gate denies a payload, the
    line that announces it is the last event of the run and the only
    denial. No transport call, no call of the gate and no selection
    follows it, whatever requests remain. *)
Theorem denial_ends_the_run `{Platform}
    (secretRequests : list SecretRequest) (w : World) :
  existsb is_denial (trace_of (getSecrets secretRequests w)) = true ->
  ends_in_denial (trace_of (getSecrets secretRequests w)).
Proof.
  rewrite getSecrets_run. unfold trace_of. cbn [snd].
  intros Hd%loop_denial. by eapply loop_ends_in_denial.
Qed.

(** The secret of another pod, with a request left after it. *)
Lemma denial_ends_the_run_witness :
  ends_in_denial
    (trace_of (@getSecrets Fixture.strict
                 [ Fixture.req "secret/data/other" "token";
                   Fixture.req "secret/data/app" "user" ] 0%nat)).
Proof.
  apply (@denial_ends_the_run Fixture.strict). vm_compute. reflexivity.
Defined.

(** ** Beyond the claims: the results of a batch *)

Section Blocks.
Context `{Platform}.

Lemma fetch_skipped secretRequest cache w w1 t1 :
  fetch secretRequest cache w = (Ok Skipped, w1, t1) -> ignoreNotFound = true.
Proof.
  destruct (cache !! ("v1/" +:+ path secretRequest)) as [text|] eqn:Hc.
  - by rewrite (fetch_hit _ _ _ _ Hc).
  - destruct (client_get w ("v1/" +:+ path secretRequest)) as [answer w'] eqn:Hg.
    rewrite (fetch_miss _ _ _ _ _ Hc Hg).
    destruct answer as [text|[[r|]]]; try done.
    cbn [response]. destruct (Z.eqb (statusCode r) 404); [|done].
    by destruct ignoreNotFound.
Qed.

Lemma build_selector_quote nested sel :
  build_selector nested sel =
    (if nested then "data." else EmptyString) +:+ "data." +:+ quote_selector sel.
Proof.
  unfold build_selector, quote_selector. by destruct (includes_dot sel), nested.
Qed.

(** What an iteration that goes on has added. *)
Lemma iteration_block secretRequest cache results w c rs :
  (iteration secretRequest cache results w).1.1 = Ok (Next c rs) ->
  exists new, rs = results ++ new /\
    Forall (fun x => path (request x) = path secretRequest) new /\
    (is_wildcard secretRequest = false ->
       (new = [] /\ ignoreNotFound = true) \/
       exists v b, new = [ {| request := secretRequest; value := v;
                              cachedResponse := b |} ]).
Proof.
  rewrite iteration_run.
  destruct (fetch secretRequest cache w) as [[[[text cached cache'|]|] w1] t1] eqn:Hf;
    cbn [fst snd]; try done.
  - rewrite resolve_run.
    destruct (JSON_parse text) as [body|]; [|done].
    destruct (inner_of body) as [inner|] eqn:Hi; [|done].
    destruct (result_of (isAllowed inner w1)) as [[]|]; cbn [fst snd]; try done.
    unfold extract. destruct (is_wildcard secretRequest).
    + destruct ((expand _ _ _ _ _ _ w1).1.1) as [rs'|] eqn:Hx; [|done].
      cbn [outcome_map]. intros [= <- <-].
      destruct (expand_results _ _ _ _ _ _ _ _ Hx) as (new & -> & Hall).
      exists new. split; [done|]. split; [|done].
      clear -Hall. induction Hall as [|k r ks new (Hr & _) _ IH]; [done|].
      constructor; [by rewrite Hr|done].
    + rewrite selectAndAppendResults_run, Hi. cbn [fst].
      destruct (selectData body _) as [v|]; [|done]. cbn [outcome_map].
      intros [= <- <-]. eexists [_]. split; [done|]. split; [by repeat constructor|].
      intros _. right. eauto.
  - intros [= <- <-]. exists []. rewrite app_nil_r. split; [done|]. split; [done|].
    intros _. left. split; [done|]. by eapply fetch_skipped.
Qed.

Lemma loop_blocks secretRequests cache results w c rs :
  (loop secretRequests cache results w).1.1 = Ok (Next c rs) ->
  exists blocks, rs = results ++ concat blocks /\ Forall2 block_of secretRequests blocks.
Proof.
  revert cache results w.
  induction secretRequests as [|r rest IH]; intros cache results w.
  { cbn [loop ret fst]. intros [= <- <-]. exists []. by rewrite app_nil_r. }
  rewrite loop_cons.
  pose proof (iteration_block r cache results w) as Hb.
  destruct (iteration r cache results w) as [[[[c1 rs1|rs1]|e] w1] ti];
    cbn [fst snd] in *; try done.
  cbn zeta. cbn [fst]. intros Hr.
  destruct (Hb c1 rs1 eq_refl) as (new & -> & Hpath & Hplain).
  destruct (IH c1 _ w1 Hr) as (blocks & -> & Hall).
  exists (new :: blocks). cbn [concat]. rewrite app_assoc. split; [done|].
  by constructor.
Qed.

End Blocks.

(** X6. The results of a batch that is processed to its end come in the
    order of the requests: they are the blocks the requests contributed,
    one after the other. The results of a block carry the path of its
    request; a request that is not a wildcard contributes one result, for
    the request itself, or none when it was skipped under the
    ignore-not-found policy. *)
Theorem results_follow_requests `{Platform}
    (secretRequests : list SecretRequest) (w : World)
    (c : gmap string string) (rs : list SecretResponse) :
  result_of (loop secretRequests ∅ [] w) = Ok (Next c rs) ->
  exists blocks,
    result_of (getSecrets secretRequests w) = Ok (concat blocks) /\
    Forall2 block_of secretRequests blocks.
Proof.
  unfold result_of. intros Hr. rewrite getSecrets_run, Hr. cbn [fst outcome_map returned].
  destruct (loop_blocks _ _ _ _ _ _ Hr) as (blocks & -> & Hall). by exists blocks.
Qed.

(** A wildcard request between two requests for one secret. *)
Lemma results_follow_requests_witness :
  exists blocks,
    result_of (@getSecrets Fixture.strict
                 [ Fixture.req "secret/data/app" "user";
                   Fixture.req "secret/data/keys" "**";
                   Fixture.req "secret/data/app" "port" ] 0%nat) = Ok (concat blocks) /\
    Forall2 (@block_of Fixture.strict)
      [ Fixture.req "secret/data/app" "user";
        Fixture.req "secret/data/keys" "**";
        Fixture.req "secret/data/app" "port" ] blocks.
Proof.
  eapply (@results_follow_requests Fixture.strict). vm_compute. reflexivity.
Defined.

(** X7. A request that is not a wildcard, over a payload the gate has
    allowed, ends as the selection of [data.data.] followed by its quoted
    selector ends: when [selectData] returns a value, the iteration adds
    one result, after the results there were, that carries the request
    itself, that value and the flag of the fetch; when [selectData]
    throws, the iteration throws the same error. *)
Theorem plain_request_adds_one_result `{Platform} (secretRequest : SecretRequest)
    (cache cache' : gmap string string) (results : list SecretResponse)
    (w w1 : World) (t1 : list Event) (text : string) (cached : bool)
    (body : JSON) (inner : JsValue) :
  is_wildcard secretRequest = false ->
  fetch secretRequest cache w = (Ok (Body text cached cache'), w1, t1) ->
  JSON_parse text = Ok body ->
  inner_of body = Ok inner ->
  result_of (isAllowed inner w1) = Ok true ->
  result_of (iteration secretRequest cache results w) =
    outcome_map
      (fun v => Next cache' (results ++ [ {| request := secretRequest; value := v;
                                             cachedResponse := cached |} ]))
      (selectData body ("data.data." +:+ quote_selector (selector secretRequest))).
Proof.
  intros Hw Hf Hp Hi Ha. unfold result_of in *.
  rewrite iteration_run, Hf. cbn zeta. cbn [fst].
  rewrite resolve_run, Hp, Hi. unfold result_of. rewrite Ha. cbn [fst].
  unfold extract. rewrite Hw, selectAndAppendResults_run, Hi. cbn [fst].
  rewrite isAllowed_run in Ha. cbn [fst] in Ha.
  destruct (gate_allows_object _ _ Ha) as [props ->]. cbn [not_nullish].
  rewrite build_selector_quote. by destruct (selectData body _).
Qed.

(** The selector [port] of [secret/data/app]: the number comes back as its
    serialisation. *)
Lemma plain_request_adds_one_result_witness :
  result_of (@iteration Fixture.strict (Fixture.req "secret/data/app" "port")
               ∅ [] 0%nat)
    = Ok (Next (<["v1/secret/data/app" := Fixture.stringify Fixture.doc_app]> ∅)
            [ {| request := Fixture.req "secret/data/app" "port";
                 value := JStr "5432"; cachedResponse := false |} ]).
Proof.
  rewrite (@plain_request_adds_one_result Fixture.strict
             (Fixture.req "secret/data/app" "port") ∅
             (<["v1/secret/data/app" := Fixture.stringify Fixture.doc_app]> ∅)
             [] 0%nat 1%nat
             [ EvGet "v1/secret/data/app" (inl (Fixture.stringify Fixture.doc_app)) ]
             (Fixture.stringify Fixture.doc_app) false Fixture.doc_app
             (Some (JObj ([ ("user", JStr "admin"); ("port", JNum "5432") ]
                          ++ Fixture.open_acl))));
    reflexivity.
Defined.

Section PlainBatch.
Context `{Platform}.

Lemma blocks_of_plain_requests secretRequests blocks :
  forallb (fun r => negb (is_wildcard r)) secretRequests = true ->
  ignoreNotFound = false ->
  Forall2 block_of secretRequests blocks ->
  map request (concat blocks) = secretRequests.
Proof.
  intros Hplain Hoff Hall. induction Hall as [|r block rs blocks [_ Hb] _ IH]; [done|].
  cbn [forallb] in Hplain. apply andb_true_iff in Hplain as [Hr Hplain].
  apply negb_true_iff in Hr.
  destruct (Hb Hr) as [[_ Hon]|(v & b & ->)]; [congruence|].
  cbn [concat app map request]. by rewrite (IH Hplain).
Qed.

End PlainBatch.

(** X8. In a batch without wildcard requests that is processed to its end
    with the ignore-not-found policy off, there is exactly one result for
    each request, in the order of the requests, and each result carries
    its request unchanged. *)
Theorem one_result_per_plain_request `{Platform}
    (secretRequests : list SecretRequest) (w : World)
    (c : gmap string string) (rs : list SecretResponse) :
  forallb (fun r => negb (is_wildcard r)) secretRequests = true ->
  ignoreNotFound = false ->
  result_of (loop secretRequests ∅ [] w) = Ok (Next c rs) ->
  result_of (getSecrets secretRequests w) = Ok rs /\
  map request rs = secretRequests.
Proof.
  unfold result_of. intros Hplain Hoff Hr.
  rewrite getSecrets_run, Hr. cbn [fst outcome_map returned]. split; [done|].
  destruct (loop_blocks _ _ _ _ _ _ Hr) as (blocks & -> & Hall).
  by apply blocks_of_plain_requests.
Qed.

(** Two selectors of one secret. *)
Lemma one_result_per_plain_request_witness :
  exists rs,
    result_of (@getSecrets Fixture.strict
                 [ Fixture.req "secret/data/app" "user";
                   Fixture.req "secret/data/app" "port" ] 0%nat) = Ok rs /\
    map request rs = [ Fixture.req "secret/data/app" "user";
                       Fixture.req "secret/data/app" "port" ].
Proof.
  eexists.
  eapply (@one_result_per_plain_request Fixture.strict);
    [reflexivity | reflexivity | vm_compute; reflexivity].
Defined.

(** ** Beyond the claims: [selectData] and [isAllowed] alone *)

(** X9. [selectData] returns a value only when an evaluation selected
    something: either the selector itself evaluated to a value whose
    serialisation is not empty, or the selector is not [data], the payload
    has a [data] field and [data.<selector>] evaluated to a value. What it
    returns is then that value, parsed back when it serialises to a string
    literal and as its serialisation otherwise. *)
Theorem selectData_returns_a_selection `{Platform} (data : JSON) (selector : string)
    (v : JSON) :
  selectData data selector = Ok v ->
  (exists ata selection,
     jsonata selector = Ok ata /\
     evaluate ata data = Ok (Some selection) /\
     JSON_stringify selection <> EmptyString /\
     unwrap (Some (JSON_stringify selection)) = Ok v) \/
  (exists ata selection,
     selector <> "data" /\
     js_in "data" (Some data) = Ok true /\
     jsonata ("data." +:+ selector) = Ok ata /\
     evaluate ata data = Ok (Some selection) /\
     unwrap (Some (JSON_stringify selection)) = Ok v).
Proof.
  unfold selectData.
  destruct (jsonata selector) as [ata|] eqn:Ha; [|done]. cbn [and_then].
  destruct (evaluate ata data) as [evaluated|] eqn:He; [|done]. cbn [and_then].
  destruct (falsy (JSON_stringify <$> evaluated)) eqn:Hf; cbn [andb].
  - destruct (((String.eqb (ast_type ata) "path" && Nat.eqb (ast_steps_length ata) 1)
               || String.eqb (ast_type ata) "string")
              && negb (String.eqb selector "data")) eqn:Hc.
    + destruct (js_in "data" (Some data)) as [[]|] eqn:Hin; [|done|done].
      cbn [and_then].
      destruct (jsonata ("data." +:+ selector)) as [ata'|] eqn:Ha'; [|done].
      cbn [and_then].
      destruct (evaluate ata' data) as [[selection|]|] eqn:He'; [|done|done].
      cbn [and_then]. intros Hv. right. exists ata', selection.
      apply andb_true_iff in Hc as [_ Hne%negb_true_iff%String.eqb_neq]. done.
    + by cbn [and_then].
  - cbn [and_then].
    destruct evaluated as [selection|]; [|done]. intros Hv.
    left. exists ata, selection. split; [done|]. split; [done|]. split; [|done].
    intros Hempty. cbn in Hf. by rewrite Hempty in Hf.
Qed.

(** [foo] in a payload of the flatter shape: found by the second
    evaluation. *)
Lemma selectData_returns_a_selection_witness :
  exists ata selection,
    @jsonata Fixture.strict ("data." +:+ "foo") = Ok ata /\
    @evaluate Fixture.strict ata (Fixture.flat [ ("foo", JStr "bar") ])
      = Ok (Some selection) /\
    @unwrap Fixture.strict (Some (@JSON_stringify Fixture.strict selection))
      = Ok (JStr "bar").
Proof.
  destruct (@selectData_returns_a_selection Fixture.strict
              (Fixture.flat [ ("foo", JStr "bar") ]) "foo" (JStr "bar") eq_refl)
    as [(ata & selection & Ha & He & _)|(ata & selection & _ & _ & Ha & He & Hu)].
  - exfalso. vm_compute in Ha. injection Ha as <-. vm_compute in He. discriminate.
  - exists ata, selection. split; [exact Ha|]. split; [exact He|exact Hu].
Defined.

Section GateInputs.
Context `{Platform}.

Lemma gate_same_attributes attrs props1 props2 w :
  Forall (fun a => assoc (attribute_key a) props1 = assoc (attribute_key a) props2) attrs ->
  gate attrs (Some (JObj props1)) w = gate attrs (Some (JObj props2)) w.
Proof.
  induction 1 as [|[[key variable] actual] attrs Hkey _ IH]; [done|].
  rewrite !gate_cons, !check_cases. unfold attribute_key in Hkey.
  cbn [fst js_in js_index] in *. rewrite Hkey.
  destruct (bool_decide (is_Some (assoc key props2))); [|done].
  destruct (assoc key props2) as [[]|]; try done.
  destruct (minimatch actual s); [|done]. cbn [fst snd]. by rewrite IH.
Qed.

Lemma includes_dot_append s1 s2 :
  includes_dot (s1 +:+ s2) = includes_dot s1 || includes_dot s2.
Proof.
  induction s1 as [|c s1 IH]; [done|]. simpl. by destruct (Ascii.eqb c ".").
Qed.

End GateInputs.

(** X10. [isAllowed] needs an object. On [undefined], on [null] and on a
    string, a number or a boolean its first test throws a [TypeError], and
    no denial is logged; on an array it finds the pod name missing and
    returns [false]. *)
Theorem isAllowed_needs_an_object `{Platform} (data : JsValue) (w : World) :
  (forall props, data <> Some (JObj props)) ->
  match data with
  | Some (JArr _) =>
      result_of (isAllowed data w) = Ok false /\
      trace_of (isAllowed data w) =
        [ EvIsAllowed data; EvDebug (DbgCheck "x-k8s-podname");
          EvDebug (DbgMissing "x-k8s-podname") ]
  | _ =>
      result_of (isAllowed data w) =
        Throw (TypeError "Cannot use 'in' operator to search for 'x-k8s-podname'") /\
      trace_of (isAllowed data w) =
        [ EvIsAllowed data; EvDebug (DbgCheck "x-k8s-podname") ]
  end.
Proof.
  intros Hno. destruct data as [[]|]; try done. by destruct (Hno props).
Qed.

(** A payload whose [data.data] is [null]. *)
Lemma isAllowed_needs_an_object_witness :
  result_of (@isAllowed Fixture.strict (Some JNull) 0%nat) =
    Throw (TypeError "Cannot use 'in' operator to search for 'x-k8s-podname'") /\
  trace_of (@isAllowed Fixture.strict (Some JNull) 0%nat) =
    [ EvIsAllowed (Some JNull); EvDebug (DbgCheck "x-k8s-podname") ].
Proof.
  apply (@isAllowed_needs_an_object Fixture.strict (Some JNull) 0%nat). discriminate.
Defined.

(** X11. The decision of the gate depends on the five attributes only: two
    objects that hold the same values under [x-k8s-podname],
    [x-k8s-namespace], [x-k8s-serviceaccount], [x-github-actor] and
    [x-github-repo] are decided alike, with the same debug lines, whatever
    else they hold and in whatever order. *)
Theorem isAllowed_reads_five_attributes `{Platform}
    (props1 props2 : list (string * JSON)) (w : World) :
  Forall (fun key => assoc key props1 = assoc key props2)
         [ "x-k8s-podname"; "x-k8s-namespace"; "x-k8s-serviceaccount";
           "x-github-actor"; "x-github-repo" ] ->
  result_of (isAllowed (Some (JObj props1)) w)
    = result_of (isAllowed (Some (JObj props2)) w) /\
  filter (fun e => is_debug e) (trace_of (isAllowed (Some (JObj props1)) w))
    = filter (fun e => is_debug e) (trace_of (isAllowed (Some (JObj props2)) w)).
Proof.
  intros Hkeys. rewrite !isAllowed_run. unfold result_of, trace_of. cbn [fst snd].
  rewrite (gate_same_attributes attributes props1 props2 w).
  - split; [done|]. rewrite !filter_cons. by rewrite !decide_False by (by intros []).
  - apply Forall_cons in Hkeys as [Hname Hkeys].
    apply Forall_cons in Hkeys as [Hnamespace Hkeys].
    apply Forall_cons in Hkeys as [Haccount Hkeys].
    apply Forall_cons in Hkeys as [Hactor Hkeys].
    apply Forall_cons in Hkeys as [Hrepo _].
    unfold attributes. by repeat constructor.
Qed.

(** The attributes of the fixture in another order, among other keys. *)
Lemma isAllowed_reads_five_attributes_witness :
  result_of (@isAllowed Fixture.strict
               (Some (JObj ([ ("user", JStr "admin") ] ++ Fixture.open_acl))) 0%nat)
    = result_of (@isAllowed Fixture.strict
                   (Some (JObj (rev Fixture.open_acl))) 0%nat).
Proof.
  apply (@isAllowed_reads_five_attributes Fixture.strict).
  repeat constructor.
Defined.

(** X12. The selector evaluated for a key of a wildcard request: behind
    the prefix that [selectAndAppendResults] adds, a key with a dot stands
    in backticks and is not quoted again, and a key without a dot stands
    in double quotes. *)
Theorem wildcard_key_selector (nested : bool) (key : string) :
  build_selector nested (wildcard_selector key) =
    (if nested then "data." else EmptyString) +:+ "data." +:+
    (if includes_dot key then backtick +:+ key +:+ backtick
     else dquote +:+ key +:+ dquote).
Proof.
  unfold build_selector, wildcard_selector.
  destruct (includes_dot key) eqn:Hdot.
  - rewrite !includes_dot_append, Hdot. cbn. by destruct nested.
  - rewrite Hdot. cbn [negb]. by destruct nested.
Qed.
